(** * Route synthesis of tornado_json.routes, embedded in Rocq

    The development follows [src/tornado_json/routes.py]:

    - [PyStr]: the methods of Python's [str] that the module calls
      ([lower], [endswith], [replace] with a count of one, [split], [join],
      [rstrip]);
    - the naming rules of [generate_route] ([get_handler_name],
      [get_arg_route], [get_module_path]);
    - the interpreter state the module reads and writes: the class objects
      with their [_tj_*] attributes, the [map] objects created by [route]
      (Python 3: one-shot iterators, shared by reference), the importable
      modules and the package tree walked by [pkgutil.walk_packages];
    - [get_module_routes], [get_routes], [route] and [baseroute] as
      computations over that state which either return or raise. *)

From Stdlib Require Import Ascii.
From stdpp Require Import base option list strings gmap fin_maps.

Local Open Scope stdpp_scope.

(** ** Python strings *)

Module PyStr.

(** [str.lower] on one character: the ASCII capitals are shifted down,
    every other code is kept (class names are ASCII identifiers). *)
Definition lower_ascii (c : ascii) : ascii :=
  let n := nat_of_ascii c in
  if Nat.leb 65 n && Nat.leb n 90 then ascii_of_nat (n + 32) else c.

Fixpoint lower (s : string) : string :=
  match s with
  | EmptyString => EmptyString
  | String c s' => String (lower_ascii c) (lower s')
  end.

(** [s.startswith(p)] *)
Definition startswith (s p : string) : bool := String.prefix p s.

(** [s.endswith(suf)]: some tail of [s] is [suf]. *)
Fixpoint endswith (s suf : string) : bool :=
  if String.eqb s suf then true
  else match s with
       | EmptyString => false
       | String _ s' => endswith s' suf
       end.

Fixpoint drop (n : nat) (s : string) : string :=
  match n, s with
  | O, _ => s
  | S _, EmptyString => EmptyString
  | S n', String _ s' => drop n' s'
  end.

(** [s.replace(old, new, 1)]: the leftmost occurrence of [old] is
    replaced, the rest of [s] is kept; without an occurrence [s] is
    returned as it is. *)
Fixpoint replace1 (old new s : string) : string :=
  if startswith s old then new +:+ drop (String.length old) s
  else match s with
       | EmptyString => EmptyString
       | String c s' => String c (replace1 old new s')
       end.

(** [s.split(sep)] for a one-character separator. *)
Fixpoint split_go (sep : ascii) (cur : string) (s : string) : list string :=
  match s with
  | EmptyString => [String.rev cur]
  | String c s' =>
      if Ascii.eqb c sep then String.rev cur :: split_go sep EmptyString s'
      else split_go sep (String c cur) s'
  end.

Definition split (sep : ascii) (s : string) : list string :=
  split_go sep EmptyString s.

(** [sep.join(l)] *)
Fixpoint join (sep : string) (l : list string) : string :=
  match l with
  | [] => EmptyString
  | [x] => x
  | x :: l' => x +:+ sep +:+ join sep l'
  end.

(** [s.rstrip(c)] for a one-character set: every trailing [c] goes. *)
Fixpoint rstrip (c : ascii) (s : string) : string :=
  match s with
  | EmptyString => EmptyString
  | String a s' =>
      match rstrip c s' with
      | EmptyString => if Ascii.eqb a c then EmptyString else String a EmptyString
      | r => String a r
      end
  end.

End PyStr.

(** ** Naming rules of [generate_route] *)

(** [AutoURL = namedtuple('AutoURL', ['type'])]: the module builds the two
    values [AutoURL('self')] and [AutoURL('module')] and no other. *)
Inductive AutoURL := auto_self | auto_module.

(** The [url_name] argument of [generate_route]: one of the two tags, or
    an entry of a handler's [_tj_end_pattern]. *)
Inductive UrlName :=
| Auto (type : AutoURL)
| Name (s : string).

Section GenerateRoute.

Variables (module_name cls_name : string).
(** [yield_args(module, cls_name, method_name)], computed by the caller. *)
Variable (args : list string).

Definition get_handler_name (url_name : UrlName) : string :=
  let res : option string :=
    match url_name with
    | Auto auto_self =>
        if PyStr.endswith (PyStr.lower cls_name) "handler"
        then Some (PyStr.replace1 "handler" "" (PyStr.lower cls_name))
        else Some (PyStr.lower cls_name)
    | Auto auto_module => None
    | Name s => Some s
    end in
  match res with
  | Some r => "/" +:+ r
  | None => ""
  end.

Definition get_arg_route : string :=
  match args with
  | [] => "/?"
  | _ :: _ =>
      "/" +:+ PyStr.join "/"
                (map (fun argname => "(?P<" +:+ argname +:+ ">[a-zA-Z0-9_]+)") args)
          +:+ "/?$"
  end.

Definition get_module_path : string :=
  "/" +:+ PyStr.join "/" (tail (PyStr.split "." module_name)).

(** The [return] of [generate_route]: the three parts, formatted. *)
Definition format_route (url_name : UrlName) : string :=
  get_module_path +:+ get_handler_name url_name +:+ get_arg_route.

End GenerateRoute.

(** ** The interpreter state read and written by the module *)

(** Class objects and [map] objects are compared and shared by identity:
    both are named by their index in a store. *)
Definition cls_ref := nat.
Definition iter_ref := nat.

(** An element of the returned list: a [(url, RequestHandler)] tuple, or
    a bare url string, which is what [generate_auto_routes] yields. *)
Inductive Entry :=
| Pair (url : string) (handler : cls_ref)
| Url (url : string).

Definition entry_url (e : Entry) : string :=
  match e with
  | Pair u _ => u
  | Url u => u
  end.

#[global] Instance Entry_eq_dec : EqDecision Entry.
Proof. solve_decision. Defined.

(** What [getattr(cls, name)] finds for a callable attribute: whether the
    name is in [vars(cls)], the verdict of [is_method] on it, and
    [inspect.getargspec(extract_method(attr)).args]. *)
Record Attr := mkAttr {
  in_vars : bool;
  is_method : bool;
  argspec : list string }.

(** The value of a handler's [_tj_pattern]: a list (the class default, or
    one assigned in the class body), or the [map] object that [_route]
    stores, which under Python 3 is an iterator read at most once. *)
Inductive Patterns :=
| PatList (l : list string)
| PatMap (it : iter_ref).

Record Class := mkClass {
  cls__name__ : string;
  cls_attrs : gmap string Attr;
  _tj_end_pattern : list string;
  _tj_pattern : Patterns;
  _tj_no_auto_route : bool;
  _tj_route_base : bool }.

(** A module as [get_module_routes] sees it: [getattr(module, cls_name)],
    and the items of [pyclbr.readmodule(module_name)] in the order of
    [rhs.items()], each with the verdict of [is_handler_subclass] on its
    class descriptor. *)
Record Module := mkModule {
  mod_attrs : gmap string cls_ref;
  mod_rhs : list (string * bool) }.

(** [sys_modules]: the modules [importlib.import_module] can load, by
    dotted name; a name outside it fails to import.  [iters !! it] is
    what is left to read of the list under the [map] object [it]. *)
Record World := mkWorld {
  sys_modules : gmap string Module;
  classes : list Class;
  iters : list (list string) }.

Inductive Exn :=
| ImportError (name : string)
| AttributeError (obj attr : string)
| TypeError.

Inductive Result (A : Type) :=
| Ok (a : A)
| Raise (e : Exn).
Arguments Ok {A} a.
Arguments Raise {A} e.

(** A computation reads and writes the state and returns or raises; the
    state written before a raise stays written. *)
Definition M (A : Type) : Type := World -> Result A * World.

Definition ret {A} (a : A) : M A := fun w => (Ok a, w).
Definition raise {A} (e : Exn) : M A := fun w => (Raise e, w).
Definition bind {A B} (m : M A) (k : A -> M B) : M B :=
  fun w => match m w with
           | (Ok a, w') => k a w'
           | (Raise e, w') => (Raise e, w')
           end.

Notation "x <- m ;; k" := (bind m (fun x => k))
  (at level 100, m at next level, right associativity).

(** A list comprehension whose body is a computation: the bodies run
    from left to right and the first raise ends the loop. *)
Fixpoint for_each {A B} (f : A -> M B) (l : list A) : M (list B) :=
  match l with
  | [] => ret []
  | x :: l' => y <- f x ;; ys <- for_each f l' ;; ret (y :: ys)
  end.

(** [list(set(l))]: the elements of [l] without repetition, in an order
    that the hashes decide and the program does not; it is a function of
    the sequence of insertions within one interpreter. *)
Class SetOrder := {
  list_set : list Entry -> list Entry;
  list_set_NoDup : forall l, NoDup (list_set l);
  list_set_elem_of : forall l x, x ∈ list_set l <-> x ∈ l }.

(** One such order: first occurrences, in the order of insertion. *)
#[refine] Instance insertion_order : SetOrder := {| list_set := remove_dups |}.
Proof.
  - intros l. apply NoDup_remove_dups.
  - intros l x. apply elem_of_remove_dups.
Defined.

(** ** Constants and helpers of [tornado_json.constants] and [tornado_json.utils] *)

(** Modelled from the spec: [HTTP_METHODS] of [tornado_json.constants],
    the canonical method set (GET, POST, PUT, DELETE, PATCH, HEAD,
    OPTIONS), written as the names of the handler methods. *)
Definition HTTP_METHODS : list string :=
  ["get"; "post"; "put"; "delete"; "patch"; "head"; "options"].

(** Modelled from the spec: [ensure_endswith] of [tornado_json.utils],
    which ensures that the string ends with the given terminator: the
    string itself when it does, the string with the terminator appended
    when it does not. *)
Definition ensure_endswith (s e : string) : string :=
  if PyStr.endswith s e then s else s +:+ e.

(** ** The decorators [route] and [baseroute] *)

(** The values a caller may pass for [pattern] and [end_pattern]; lists
    and tuples hold strings, as the docstring of [route] types them. *)
Inductive PyVal :=
| VNone
| VStr (s : string)
| VList (l : list string)
| VTuple (l : list string)
| VInt (n : Z)
| VBytes (b : string)
| VDict (items : list (string * string)).

Definition lift {A} (r : Result A) : M A := fun w => (r, w).

Definition set_classes (f : list Class -> list Class) (w : World) : World :=
  mkWorld (sys_modules w) (f (classes w)) (iters w).

Definition set_iters (f : list (list string) -> list (list string)) (w : World) : World :=
  mkWorld (sys_modules w) (classes w) (f (iters w)).

(** [setattr(handler, ...)] on a live class object. *)
Definition setattr (handler : cls_ref) (f : Class -> Class) : M unit :=
  fun w => (Ok tt, set_classes (alter f handler) w).

Definition with_end_pattern (v : list string) (k : Class) : Class :=
  mkClass (cls__name__ k) (cls_attrs k) v (_tj_pattern k)
          (_tj_no_auto_route k) (_tj_route_base k).

Definition with_pattern (v : Patterns) (k : Class) : Class :=
  mkClass (cls__name__ k) (cls_attrs k) (_tj_end_pattern k) v
          (_tj_no_auto_route k) (_tj_route_base k).

Definition with_no_auto_route (v : bool) (k : Class) : Class :=
  mkClass (cls__name__ k) (cls_attrs k) (_tj_end_pattern k) (_tj_pattern k)
          v (_tj_route_base k).

Definition with_route_base (v : bool) (k : Class) : Class :=
  mkClass (cls__name__ k) (cls_attrs k) (_tj_end_pattern k) (_tj_pattern k)
          (_tj_no_auto_route k) v.

Definition _sanitize_pattern (p : string) : string :=
  let p := PyStr.rstrip "$" p in
  let p := ensure_endswith p "/?" in
  p +:+ "$".

Definition _transform_attr (attr : PyVal) : Result (list string) :=
  match attr with
  | VStr s => Ok [s]
  | VList l | VTuple l => Ok l
  | VNone => Ok []
  | _ => Raise TypeError
  end.

(** [map(_sanitize_pattern, l)]: a new [map] object over [l]; nothing of
    [l] is read yet. *)
Definition new_map (l : list string) : M iter_ref :=
  fun w => (Ok (length (iters w)), set_iters (fun h => h ++ [l]) w).

Section Route.

Variables (pattern end_pattern : PyVal) (no_auto_route : bool).

Definition _route (handler : cls_ref) : M cls_ref :=
  ep <- lift (_transform_attr end_pattern) ;;
  _ <- setattr handler (with_end_pattern ep) ;;
  p <- lift (_transform_attr pattern) ;;
  it <- new_map p ;;
  _ <- setattr handler (with_pattern (PatMap it)) ;;
  _ <- setattr handler (with_no_auto_route no_auto_route) ;;
  ret handler.

End Route.

(** [route(pattern, end_pattern, no_auto_route)] returns [_route]. *)
Definition route (pattern end_pattern : PyVal) (no_auto_route : bool)
  : cls_ref -> M cls_ref :=
  _route pattern end_pattern no_auto_route.

Definition baseroute (handler : cls_ref) : M cls_ref :=
  _ <- setattr handler (with_route_base true) ;;
  _ <- setattr handler (with_no_auto_route true) ;;
  ret handler.

(** ** [get_module_routes] *)

Definition import_module (module_name : string) : M Module :=
  fun w => match sys_modules w !! module_name with
           | Some m => (Ok m, w)
           | None => (Raise (ImportError module_name), w)
           end.

(** [getattr(module, cls_name)]: the class object and what it holds now. *)
Definition getattr_class (m : Module) (cls_name : string) : M (cls_ref * Class) :=
  fun w => match mod_attrs m !! cls_name with
           | Some c =>
               match classes w !! c with
               | Some k => (Ok (c, k), w)
               | None => (Raise (AttributeError "module" cls_name), w)
               end
           | None => (Raise (AttributeError "module" cls_name), w)
           end.

(** [reduce(getattr, [module, cls_name, method_name])] *)
Definition getattr_method (m : Module) (cls_name method_name : string) : M Attr :=
  ck <- getattr_class m cls_name ;;
  match cls_attrs ck.2 !! method_name with
  | Some a => ret a
  | None => raise (AttributeError cls_name method_name)
  end.

(** [c.__name__] of a class object in [custom_routes]. *)
Definition class_name (c : cls_ref) : M string :=
  fun w => match classes w !! c with
           | Some k => (Ok (cls__name__ k), w)
           | None => (Raise (AttributeError "type" "__name__"), w)
           end.

(** [for url in handler._tj_pattern]: a list is read and stays; a [map]
    object hands out what is left of it, sanitized, and is left empty. *)
Definition iterate (p : Patterns) : M (list string) :=
  match p with
  | PatList l => ret l
  | PatMap it =>
      fun w => (Ok (map _sanitize_pattern (default [] (iters w !! it))),
                set_iters (<[it := []]>) w)
  end.

Section GetModuleRoutes.

Context {so : SetOrder}.
Variables (m : Module) (module_name : string).

(** Both elements of the list given to [all] are evaluated. *)
Definition has_method (cls_name method_name : string) : M bool :=
  a <- getattr_method m cls_name method_name ;;
  ret (in_vars a && is_method a).

Definition yield_args (cls_name method_name : string) : M (list string) :=
  a <- getattr_method m cls_name method_name ;;
  ret (filter (fun a => a ≠ "self") (argspec a)).

Definition generate_route (cls_name method_name : string) (url_name : UrlName)
  : M string :=
  args <- yield_args cls_name method_name ;;
  ret (format_route module_name cls_name args url_name).

Definition generate_auto_routes (cls_name method_name : string) : M (list string) :=
  handler <- getattr_class m cls_name ;;
  r1 <- (if negb (_tj_no_auto_route handler.2)
         then u <- generate_route cls_name method_name (Auto auto_self) ;; ret [u]
         else ret []) ;;
  r2 <- (if _tj_route_base handler.2
         then u <- generate_route cls_name method_name (Auto auto_module) ;; ret [u]
         else ret []) ;;
  ret (r1 ++ r2).

(** The body of the inner comprehension, for one HTTP method. *)
Definition method_routes (cls_name method_name : string) : M (list Entry) :=
  h1 <- getattr_class m cls_name ;;
  ends <- for_each
            (fun url_name =>
               u <- generate_route cls_name method_name (Name url_name) ;;
               h <- getattr_class m cls_name ;;
               ret (Pair u h.1))
            (_tj_end_pattern h1.2) ;;
  h2 <- getattr_class m cls_name ;;
  urls <- iterate (_tj_pattern h2.2) ;;
  customs <- for_each
               (fun url => h <- getattr_class m cls_name ;; ret (Pair url h.1))
               urls ;;
  autos <- generate_auto_routes cls_name method_name ;;
  ret (ends ++ customs ++ map Url autos).

(** The routes of one class: the bodies of the HTTP methods it has,
    chained, passed through [set] and back to a list. *)
Definition class_routes (cls_name : string) : M (list Entry) :=
  rss <- for_each
           (fun method_name =>
              b <- has_method cls_name method_name ;;
              if b then method_routes cls_name method_name else ret [])
           HTTP_METHODS ;;
  ret (list_set (concat rss)).

End GetModuleRoutes.

Definition get_module_routes `{so : SetOrder} (module_name : string)
    (custom_routes : option (list (string * cls_ref)))
    (exclusions : option (list string)) : M (list Entry) :=
  let custom_routes := default [] custom_routes in
  let exclusions := default [] exclusions in
  m <- import_module module_name ;;
  custom_routes_s <- for_each (fun rc => class_name rc.2) custom_routes ;;
  let rhs := mod_rhs m in
  auto_routes <- for_each
                   (fun item =>
                      if item.2 && negb (bool_decide (item.1 ∈ custom_routes_s ++ exclusions))
                      then class_routes m module_name item.1
                      else ret [])
                   rhs ;;
  ret (concat auto_routes ++ map (fun rc => Pair rc.1 rc.2) custom_routes).

(** ** [get_routes] and the package walk *)

(** What [pkgutil.iter_modules] finds under a path: a name, whether it is
    a package, and what is under its own [__path__]. *)
#[warnings="-register-all"] Inductive ModuleInfo :=
| mkInfo (name : string) (ispkg : bool) (sub : list ModuleInfo).

Record Package := mkPackage {
  pkg__name__ : string;
  pkg__path__ : list ModuleInfo }.

(** [pkgutil.walk_packages(path, prefix, onerror=lambda x: None)]: every
    entry is yielded; a package is then imported, and walked only when
    that import succeeds, a failure being swallowed by [onerror]. *)
Fixpoint walk_info (importable : string -> bool) (prefix : string)
    (i : ModuleInfo) : list string :=
  match i with
  | mkInfo name ispkg sub =>
      let modname := prefix +:+ name in
      modname ::
        (if ispkg && importable modname
         then flat_map (walk_info importable (modname +:+ ".")) sub
         else [])
  end.

Definition walk_packages (importable : string -> bool) (path : list ModuleInfo)
    (prefix : string) : list string :=
  flat_map (walk_info importable prefix) path.

Definition gen_submodule_names (package : Package) (w : World) : list string :=
  walk_packages (fun n => bool_decide (is_Some (sys_modules w !! n)))
    (pkg__path__ package) (pkg__name__ package +:+ ".").

Definition get_routes `{so : SetOrder} (package : Package) : M (list Entry) :=
  fun w =>
    (rss <- for_each (fun modname => get_module_routes modname None None)
                     (gen_submodule_names package w) ;;
     ret (concat rss)) w.

(** ** What the definitions compute, in closed form *)

(** What a loop over [_tj_pattern] reads, and the state it leaves. *)
Definition read_patterns (p : Patterns) (w : World) : list string :=
  match p with
  | PatList l => l
  | PatMap it => map _sanitize_pattern (default [] (iters w !! it))
  end.

Definition consume (p : Patterns) (w : World) : World :=
  match p with
  | PatList _ => w
  | PatMap it => set_iters (<[it := []]>) w
  end.

Definition auto_urls (module_name cls_name : string) (k : Class)
    (args : list string) : list string :=
  (if negb (_tj_no_auto_route k)
   then [format_route module_name cls_name args (Auto auto_self)] else [])
  ++ (if _tj_route_base k
      then [format_route module_name cls_name args (Auto auto_module)] else []).

(** The entries of one HTTP method of the class object [c] holding [k],
    whose arguments are [args], when the loop over [_tj_pattern] reads
    [urls]. *)
Definition method_entries (module_name cls_name : string) (c : cls_ref)
    (k : Class) (args urls : list string) : list Entry :=
  map (fun e => Pair (format_route module_name cls_name args (Name e)) c)
      (_tj_end_pattern k)
  ++ map (fun u => Pair u c) urls
  ++ map Url (auto_urls module_name cls_name k args).

(** [runs f l w ys w']: the bodies [f x], for [x] through [l] from the
    state [w], all return; [ys] are their results and [w'] is the state
    after the last. *)
Inductive runs {A B} (f : A -> M B) : list A -> World -> list B -> World -> Prop :=
| runs_nil w : runs f [] w [] w
| runs_cons x l w y w1 ys w2 :
    f x w = (Ok y, w1) -> runs f l w1 ys w2 ->
    runs f (x :: l) w (y :: ys) w2.

(** The synthesis writes to the [map] objects only. *)
Definition same_code (w w' : World) : Prop :=
  sys_modules w' = sys_modules w /\ classes w' = classes w.

(** ** Reading a pattern back *)

(** [named_groups s] lists, from left to right, the named groups
    [(?P<name>body)] written in [s], each as [(name, body)]. *)
Inductive ScanState :=
| Outside (seen : nat)
| InName (name : string)
| InBody (name body : string).

Definition snoc (s : string) (c : ascii) : string := s +:+ String c EmptyString.

Fixpoint scan (s : string) (st : ScanState) : list (string * string) :=
  match s with
  | EmptyString => []
  | String c s' =>
      match st with
      | Outside seen =>
          if Ascii.eqb c "(" then scan s' (Outside 1)
          else match seen with
               | 1 => scan s' (if Ascii.eqb c "?" then Outside 2 else Outside 0)
               | 2 => scan s' (if Ascii.eqb c "P" then Outside 3 else Outside 0)
               | 3 => scan s' (if Ascii.eqb c "<" then InName EmptyString else Outside 0)
               | _ => scan s' (Outside 0)
               end
      | InName name =>
          if Ascii.eqb c ">" then scan s' (InBody name EmptyString)
          else scan s' (InName (snoc name c))
      | InBody name body =>
          if Ascii.eqb c ")" then (name, body) :: scan s' (Outside 0)
          else scan s' (InBody name (snoc body c))
      end
  end.

Definition named_groups (s : string) : list (string * string) := scan s (Outside 0).

(** The characters of [[a-zA-Z0-9_]]. *)
Definition word_char (c : ascii) : bool :=
  let n := nat_of_ascii c in
  (Nat.leb 97 n && Nat.leb n 122) || (Nat.leb 65 n && Nat.leb n 90)
  || (Nat.leb 48 n && Nat.leb n 57) || Nat.eqb n 95.

Fixpoint word (s : string) : bool :=
  match s with
  | EmptyString => true
  | String c s' => word_char c && word s'
  end.

(** ** The rules as the specification words them *)

(** The self-naming rule of the specification: a trailing "handler" of
    the lowercased name is cut off, once; the rest is kept. *)
Definition spec_segment_for_self (class_name : string) : string :=
  let l := PyStr.lower class_name in
  if PyStr.endswith l "handler"
  then String.substring 0 (String.length l - 7) l
  else l.

(** The end-pattern route of the specification: the name segment is the
    entry sanitized as a custom pattern is. *)
Definition spec_end_pattern_route (module_name entry : string)
    (args : list string) : string :=
  get_module_path module_name +:+ ("/" +:+ _sanitize_pattern entry)
    +:+ get_arg_route args.

(** The shapes [route] accepts for [pattern] and [end_pattern]: a string,
    a list or a tuple, or [None]. *)
Definition supported (attr : PyVal) : bool :=
  match attr with
  | VStr _ | VList _ | VTuple _ | VNone => true
  | _ => false
  end.

(** ** Statements about computations *)

(** [preserves m]: running [m] leaves modules and classes as they are. *)
Definition preserves {A} (m : M A) : Prop :=
  forall w r w', m w = (r, w') -> same_code w w'.

(** [frozen w]: no class of [w] holds a [map] object in [_tj_pattern],
    as when [route] has decorated none. *)
Definition frozen (w : World) : Prop :=
  forall c k, classes w !! c = Some k -> exists l, _tj_pattern k = PatList l.

(** [stable m]: from a frozen state, running [m] leaves the state as it
    is. *)
Definition stable {A} (m : M A) : Prop :=
  forall w r w', frozen w -> m w = (r, w') -> w' = w.

(** What the HTTP method [method_name] of the class object [c] holding
    [k] adds to the chain of [class_routes] run from [w]: nothing when the
    class does not define it, else its entries, the loop over
    [_tj_pattern] reading in some state [wi] reached from [w]. *)
Definition contributes (module_name cls_name : string) (c : cls_ref) (k : Class)
    (w : World) (method_name : string) (rs : list Entry) : Prop :=
  exists a wi,
    cls_attrs k !! method_name = Some a /\ same_code w wi /\
    rs = if in_vars a && is_method a
         then method_entries module_name cls_name c k
                (filter (fun x => x ≠ "self") (argspec a))
                (read_patterns (_tj_pattern k) wi)
         else [].

(** The body of the comprehension of [class_routes]. *)
Definition method_body (m : Module) (module_name cls_name method_name : string)
  : M (list Entry) :=
  b <- has_method m cls_name method_name ;;
  if b then method_routes m module_name cls_name method_name else ret [].

(** One named group of [get_arg_route]. *)
Definition capture (argname : string) : string :=
  "(?P<" +:+ argname +:+ ">[a-zA-Z0-9_]+)".

(** ** Sample programs *)

Module Sample.

(** An HTTP method that the class inherits from [RequestHandler]. *)
Definition inherited : Attr := mkAttr false true ["self"].

(** An HTTP method that the class body defines. *)
Definition defined (params : list string) : Attr :=
  mkAttr true true ("self" :: params).

Definition base_attrs : gmap string Attr :=
  list_to_map (map (fun n => (n, inherited)) HTTP_METHODS).

(** [class HelloWorldHandler(APIHandler): def get(self): ...] *)
Definition HelloWorldHandler : Class :=
  mkClass "HelloWorldHandler" (<["get" := defined []]> base_attrs)
          [] (PatList []) false false.

(** The module [api.helloworld], which defines that class alone. *)
Definition helloworld : Module :=
  mkModule {["HelloWorldHandler" := 0]} [("HelloWorldHandler", true)].

Definition hello_world : World :=
  mkWorld {["api.helloworld" := helloworld]} [HelloWorldHandler] [].

(** The same module with the class under [@route(pattern="/foo")]. *)
Definition routed_world : World :=
  (route (VStr "/foo") VNone true 0 hello_world).2.

(** The same module with the class under [@route(end_pattern="foo")]. *)
Definition ended_world : World :=
  (route VNone (VStr "foo") true 0 hello_world).2.

(** A class that defines [get] and [post], both of the receiver alone. *)
Definition GetPostHandler : Class :=
  mkClass "GetPostHandler"
          (<["post" := defined []]> (<["get" := defined []]> base_attrs))
          [] (PatList []) false false.

Definition getpost : Module :=
  mkModule {["GetPostHandler" := 0]} [("GetPostHandler", true)].

Definition getpost_world : World :=
  mkWorld {["api.getpost" := getpost]} [GetPostHandler] [].

(** The package [api] with the module [helloworld] and a module
    [broken] whose import fails. *)
Definition api : Package :=
  mkPackage "api" [mkInfo "helloworld" false []; mkInfo "broken" false []].

(** The package [api] with the module [helloworld] alone. *)
Definition hello_api : Package :=
  mkPackage "api" [mkInfo "helloworld" false []].

(** A class that is no [RequestHandler]: it defines [get], holds a
    [map] object of one pattern, and resolves no other HTTP method name. *)
Definition Partial : Class :=
  mkClass "Partial" {["get" := defined []]} [] (PatMap 0) false false.

Definition partial : Module :=
  mkModule {["Partial" := 0]} [("Partial", true)].

Definition partial_world : World :=
  mkWorld {["api.partial" := partial]} [Partial] [["/foo"]].

(** The package [api] with the module [helloworld] and the package
    [sub], which holds the module [x]. *)
Definition nested : Package :=
  mkPackage "api" [mkInfo "helloworld" false [];
                   mkInfo "sub" true [mkInfo "x" false []]].

(** [hello_world] once [api.sub] is importable as well. *)
Definition sub_world : World :=
  mkWorld (<["api.sub" := mkModule ∅ []]> (sys_modules hello_world))
          (classes hello_world) (iters hello_world).

End Sample.

(** ** Further closed forms *)

(** Whether the class holding [k] defines some HTTP method among [ms]. *)
Definition defines_any (k : Class) (ms : list string) : bool :=
  existsb (fun mn => match cls_attrs k !! mn with
                     | Some a => in_vars a && is_method a
                     | None => false
                     end) ms.

(** [x] is an entry that some HTTP method among [ms] gives whatever the
    loop over [_tj_pattern] reads: an end-pattern route or an auto url of
    a method that the class defines. *)
Definition fixed_entry (module_name cls_name : string) (c : cls_ref) (k : Class)
    (ms : list string) (x : Entry) : Prop :=
  exists mn a,
    mn ∈ ms /\ cls_attrs k !! mn = Some a /\
    in_vars a && is_method a = true /\
    x ∈ method_entries module_name cls_name c k
          (filter (fun x => x ≠ "self") (argspec a)) [].

(** [shrinks w w']: [w'] has the modules and classes of [w], and its
    [map] objects hold nothing that those of [w] do not. *)
Definition shrinks (w w' : World) : Prop :=
  same_code w w' /\
  forall it x, x ∈ default [] (iters w' !! it) -> x ∈ default [] (iters w !! it).

(** A name without a dot: one component of a dotted module name. *)
Fixpoint dotless (s : string) : bool :=
  match s with
  | EmptyString => true
  | String c s' => negb (Ascii.eqb c ".") && dotless s'
  end.

(** * Properties *)

(** ** Computations *)

Lemma bind_Ok {A B} (m : M A) (k : A -> M B) w a w1 :
  m w = (Ok a, w1) -> bind m k w = k a w1.
Proof. intros H. unfold bind. by rewrite H. Qed.

Lemma bind_Raise {A B} (m : M A) (k : A -> M B) w e w1 :
  m w = (Raise e, w1) -> bind m k w = (Raise e, w1).
Proof. intros H. unfold bind. by rewrite H. Qed.

Lemma bind_Ok_inv {A B} (m : M A) (k : A -> M B) w b w' :
  bind m k w = (Ok b, w') ->
  exists a w1, m w = (Ok a, w1) /\ k a w1 = (Ok b, w').
Proof.
  unfold bind. destruct (m w) as [[a|e] w1]; intros H.
  - by exists a, w1.
  - discriminate.
Qed.

Lemma for_each_runs {A B} (f : A -> M B) l w ys w' :
  for_each f l w = (Ok ys, w') <-> runs f l w ys w'.
Proof.
  split.
  - revert w ys w'. induction l as [|x l IH]; simpl; intros w ys w' H.
    + inversion H; subst. constructor.
    + apply bind_Ok_inv in H as (y & w1 & Hy & H).
      apply bind_Ok_inv in H as (ys' & w2 & Hys & H).
      inversion H; subst. econstructor; eauto.
  - induction 1 as [w|x l w y w1 ys w2 Hy _ IH]; simpl; [done|].
    rewrite (bind_Ok _ _ _ _ _ Hy), (bind_Ok _ _ _ _ _ IH). done.
Qed.

Lemma runs_length {A B} (f : A -> M B) l w ys w' :
  runs f l w ys w' -> length ys = length l.
Proof. induction 1; simpl; congruence. Qed.

(** A loop whose body never raises and leaves the state alone is [map]. *)
Lemma for_each_pure {A B} (f : A -> M B) (g : A -> B) l w :
  (forall x, x ∈ l -> f x w = (Ok (g x), w)) ->
  for_each f l w = (Ok (map g l), w).
Proof.
  induction l as [|x l IH]; intros H; simpl; [done|].
  rewrite (bind_Ok _ _ _ _ _ (H x ltac:(left))).
  rewrite (bind_Ok _ _ _ _ _ (IH (fun y Hy => H y ltac:(by right)))). done.
Qed.

(** ** The synthesis leaves modules and classes as they are *)

Lemma same_code_refl w : same_code w w.
Proof. by split. Qed.

Lemma same_code_trans w1 w2 w3 :
  same_code w1 w2 -> same_code w2 w3 -> same_code w1 w3.
Proof. intros [? ?] [? ?]. split; congruence. Qed.

Lemma preserves_ret {A} (a : A) : preserves (ret a).
Proof. intros w r w' [= _ <-]. apply same_code_refl. Qed.

Lemma preserves_raise {A} e : preserves (@raise A e).
Proof. intros w r w' [= _ <-]. apply same_code_refl. Qed.

Lemma preserves_bind {A B} (m : M A) (k : A -> M B) :
  preserves m -> (forall a, preserves (k a)) -> preserves (bind m k).
Proof.
  intros Hm Hk w r w'. unfold bind.
  destruct (m w) as [[a|e] w1] eqn:E; intros H.
  - eapply same_code_trans; [eapply Hm, E | eapply Hk, H].
  - inversion H; subst. eapply Hm, E.
Qed.

Lemma preserves_for_each {A B} (f : A -> M B) l :
  (forall x, preserves (f x)) -> preserves (for_each f l).
Proof.
  intros Hf. induction l as [|x l IH]; simpl.
  - apply preserves_ret.
  - apply preserves_bind; [apply Hf|]. intros y.
    apply preserves_bind; [apply IH|]. intros ys. apply preserves_ret.
Qed.

Lemma preserves_if {A} (b : bool) (m1 m2 : M A) :
  preserves m1 -> preserves m2 -> preserves (if b then m1 else m2).
Proof. by destruct b. Qed.

Lemma preserves_import_module n : preserves (import_module n).
Proof.
  intros w r w'. unfold import_module.
  destruct (sys_modules w !! n); intros [= _ <-]; apply same_code_refl.
Qed.

Lemma preserves_getattr_class m cls_name : preserves (getattr_class m cls_name).
Proof.
  intros w r w'. unfold getattr_class.
  destruct (mod_attrs m !! cls_name) as [c|]; [destruct (classes w !! c)|];
    intros [= _ <-]; apply same_code_refl.
Qed.

Lemma preserves_class_name c : preserves (class_name c).
Proof.
  intros w r w'. unfold class_name.
  destruct (classes w !! c); intros [= _ <-]; apply same_code_refl.
Qed.

Lemma preserves_iterate p : preserves (iterate p).
Proof.
  destruct p as [l|it]; simpl; [apply preserves_ret|].
  intros w r w' [= _ <-]. by split.
Qed.

Create HintDb preserves.
#[local] Hint Resolve preserves_ret preserves_raise preserves_import_module
  preserves_getattr_class preserves_class_name preserves_iterate : preserves.
#[local] Hint Extern 2 (preserves (bind _ _)) =>
  apply preserves_bind; [|intros ?] : preserves.
#[local] Hint Extern 2 (preserves (for_each _ _)) =>
  apply preserves_for_each; intros ? : preserves.
#[local] Hint Extern 2 (preserves (if _ then _ else _)) =>
  apply preserves_if : preserves.
#[local] Hint Extern 3 (preserves (match ?x with _ => _ end)) =>
  destruct x : preserves.

Lemma preserves_getattr_method m cls_name method_name :
  preserves (getattr_method m cls_name method_name).
Proof. unfold getattr_method. auto with preserves. Qed.
#[local] Hint Resolve preserves_getattr_method : preserves.

Lemma preserves_has_method m cls_name method_name :
  preserves (has_method m cls_name method_name).
Proof. unfold has_method. auto with preserves. Qed.

Lemma preserves_yield_args m cls_name method_name :
  preserves (yield_args m cls_name method_name).
Proof. unfold yield_args. auto with preserves. Qed.
#[local] Hint Resolve preserves_has_method preserves_yield_args : preserves.

Lemma preserves_generate_route m module_name cls_name method_name url_name :
  preserves (generate_route m module_name cls_name method_name url_name).
Proof. unfold generate_route. auto with preserves. Qed.
#[local] Hint Resolve preserves_generate_route : preserves.

Lemma preserves_generate_auto_routes m module_name cls_name method_name :
  preserves (generate_auto_routes m module_name cls_name method_name).
Proof. unfold generate_auto_routes. auto 10 with preserves. Qed.
#[local] Hint Resolve preserves_generate_auto_routes : preserves.

Lemma preserves_method_routes m module_name cls_name method_name :
  preserves (method_routes m module_name cls_name method_name).
Proof. unfold method_routes. auto 12 with preserves. Qed.
#[local] Hint Resolve preserves_method_routes : preserves.

Lemma preserves_class_routes `{so : SetOrder} m module_name cls_name :
  preserves (class_routes m module_name cls_name).
Proof. unfold class_routes. auto 10 with preserves. Qed.
#[local] Hint Resolve preserves_class_routes : preserves.

Lemma preserves_get_module_routes `{so : SetOrder} module_name custom_routes exclusions :
  preserves (get_module_routes module_name custom_routes exclusions).
Proof. unfold get_module_routes. auto 10 with preserves. Qed.

(** ** One class, one method *)

Section OneClass.

Context `{so : SetOrder}.
Variables (m : Module) (module_name cls_name : string).
Variables (c : cls_ref) (k : Class).
Hypothesis Hc : mod_attrs m !! cls_name = Some c.

Lemma getattr_class_Ok w :
  classes w !! c = Some k -> getattr_class m cls_name w = (Ok (c, k), w).
Proof. intros Hk. unfold getattr_class. by rewrite Hc, Hk. Qed.

Lemma getattr_method_Ok w method_name a :
  classes w !! c = Some k -> cls_attrs k !! method_name = Some a ->
  getattr_method m cls_name method_name w = (Ok a, w).
Proof.
  intros Hk Ha. unfold getattr_method.
  rewrite (bind_Ok _ _ _ _ _ (getattr_class_Ok w Hk)). simpl. by rewrite Ha.
Qed.

Lemma getattr_method_Raise w method_name :
  classes w !! c = Some k -> cls_attrs k !! method_name = None ->
  getattr_method m cls_name method_name w
  = (Raise (AttributeError cls_name method_name), w).
Proof.
  intros Hk Ha. unfold getattr_method.
  rewrite (bind_Ok _ _ _ _ _ (getattr_class_Ok w Hk)). simpl. by rewrite Ha.
Qed.

Lemma has_method_Ok w method_name a :
  classes w !! c = Some k -> cls_attrs k !! method_name = Some a ->
  has_method m cls_name method_name w = (Ok (in_vars a && is_method a), w).
Proof.
  intros Hk Ha. unfold has_method.
  by rewrite (bind_Ok _ _ _ _ _ (getattr_method_Ok w _ _ Hk Ha)).
Qed.

Lemma yield_args_Ok w method_name a :
  classes w !! c = Some k -> cls_attrs k !! method_name = Some a ->
  yield_args m cls_name method_name w
  = (Ok (filter (fun x => x ≠ "self") (argspec a)), w).
Proof.
  intros Hk Ha. unfold yield_args.
  by rewrite (bind_Ok _ _ _ _ _ (getattr_method_Ok w _ _ Hk Ha)).
Qed.

Lemma generate_route_Ok w method_name a url_name :
  classes w !! c = Some k -> cls_attrs k !! method_name = Some a ->
  generate_route m module_name cls_name method_name url_name w
  = (Ok (format_route module_name cls_name
           (filter (fun x => x ≠ "self") (argspec a)) url_name), w).
Proof.
  intros Hk Ha. unfold generate_route.
  by rewrite (bind_Ok _ _ _ _ _ (yield_args_Ok w _ _ Hk Ha)).
Qed.

Lemma generate_auto_routes_Ok w method_name a :
  classes w !! c = Some k -> cls_attrs k !! method_name = Some a ->
  generate_auto_routes m module_name cls_name method_name w
  = (Ok (auto_urls module_name cls_name k
           (filter (fun x => x ≠ "self") (argspec a))), w).
Proof.
  intros Hk Ha. unfold generate_auto_routes, auto_urls.
  rewrite (bind_Ok _ _ _ _ _ (getattr_class_Ok w Hk)). simpl.
  destruct (_tj_no_auto_route k), (_tj_route_base k); simpl;
    unfold bind, ret; rewrite ?(generate_route_Ok w _ _ _ Hk Ha); reflexivity.
Qed.

Lemma iterate_eq p w : iterate p w = (Ok (read_patterns p w), consume p w).
Proof. by destruct p. Qed.

Lemma consume_classes p w : classes (consume p w) = classes w.
Proof. by destruct p. Qed.

Lemma consume_sys_modules p w : sys_modules (consume p w) = sys_modules w.
Proof. by destruct p. Qed.

(** The body of the comprehension for a method the class resolves. *)
Lemma method_routes_Ok w method_name a :
  classes w !! c = Some k -> cls_attrs k !! method_name = Some a ->
  method_routes m module_name cls_name method_name w
  = (Ok (method_entries module_name cls_name c k
           (filter (fun x => x ≠ "self") (argspec a))
           (read_patterns (_tj_pattern k) w)),
     consume (_tj_pattern k) w).
Proof.
  intros Hk Ha. unfold method_routes, method_entries.
  rewrite (bind_Ok _ _ _ _ _ (getattr_class_Ok w Hk)). simpl.
  erewrite bind_Ok; cycle 1.
  { apply for_each_pure. intros e _.
    rewrite (bind_Ok _ _ _ _ _ (generate_route_Ok w _ _ _ Hk Ha)).
    rewrite (bind_Ok _ _ _ _ _ (getattr_class_Ok w Hk)). reflexivity. }
  rewrite (bind_Ok _ _ _ _ _ (getattr_class_Ok w Hk)). simpl.
  rewrite (bind_Ok _ _ _ _ _ (iterate_eq _ w)).
  assert (Hk' : classes (consume (_tj_pattern k) w) !! c = Some k)
    by by rewrite consume_classes.
  erewrite bind_Ok; cycle 1.
  { apply for_each_pure. intros u _.
    rewrite (bind_Ok _ _ _ _ _ (getattr_class_Ok _ Hk')). reflexivity. }
  rewrite (bind_Ok _ _ _ _ _ (generate_auto_routes_Ok _ _ _ Hk' Ha)).
  reflexivity.
Qed.

End OneClass.

(** ** One class, all its HTTP methods *)

Section AllMethods.

Context `{so : SetOrder}.
Variables (m : Module) (module_name cls_name : string).
Variables (c : cls_ref) (k : Class).
Hypothesis Hc : mod_attrs m !! cls_name = Some c.

Lemma methods_run ms w :
  classes w !! c = Some k ->
  (forall mn, mn ∈ ms -> is_Some (cls_attrs k !! mn)) ->
  exists rss w',
    runs (method_body m module_name cls_name) ms w rss w' /\ same_code w w' /\
    Forall2 (contributes module_name cls_name c k w) ms rss /\
    (forall l, _tj_pattern k = PatList l -> w' = w).
Proof.
  revert w. induction ms as [|mn ms IH]; intros w Hk Hres.
  - exists [], w. split; [constructor|]. split; [apply same_code_refl|].
    split; [constructor|done].
  - destruct (Hres mn ltac:(left)) as [a Ha].
    set (w1 := if in_vars a && is_method a then consume (_tj_pattern k) w else w).
    assert (Hsame : same_code w w1).
    { unfold w1. destruct (in_vars a && is_method a); [|apply same_code_refl].
      split; [apply consume_sys_modules|apply consume_classes]. }
    assert (Hk1 : classes w1 !! c = Some k) by (destruct Hsame as [_ ->]; done).
    destruct (IH w1 Hk1 (fun x Hx => Hres x ltac:(by right)))
      as (rss & w' & Hruns & Hsame' & Hall & Hlist).
    exists ((if in_vars a && is_method a
             then method_entries module_name cls_name c k
                    (filter (fun x => x ≠ "self") (argspec a))
                    (read_patterns (_tj_pattern k) w)
             else []) :: rss), w'.
    split; [|split; [|split]].
    + econstructor; [|exact Hruns]. unfold method_body.
      rewrite (bind_Ok _ _ _ _ _ (has_method_Ok m cls_name c k Hc w mn a Hk Ha)).
      unfold w1. destruct (in_vars a && is_method a) eqn:E.
      * apply (method_routes_Ok m module_name cls_name c k Hc w mn a Hk Ha).
      * reflexivity.
    + by eapply same_code_trans.
    + constructor.
      * exists a, w. split; [done|]. split; [apply same_code_refl|done].
      * eapply Forall2_impl; [exact Hall|].
        intros x rs (a' & wi & ? & Hwi & ?). exists a', wi.
        split; [done|]. split; [by eapply same_code_trans|done].
    + intros l Hl. rewrite (Hlist l Hl). unfold w1.
      destruct (in_vars a && is_method a); [|done]. by rewrite Hl.
Qed.

(** A class that resolves every HTTP method name, as every subclass of
    [RequestHandler] does, gets its routes: [class_routes] returns. *)
Lemma class_routes_Ok w :
  classes w !! c = Some k ->
  (forall mn, mn ∈ HTTP_METHODS -> is_Some (cls_attrs k !! mn)) ->
  exists rss w',
    class_routes m module_name cls_name w = (Ok (list_set (concat rss)), w') /\
    same_code w w' /\
    Forall2 (contributes module_name cls_name c k w) HTTP_METHODS rss /\
    (forall l, _tj_pattern k = PatList l -> w' = w).
Proof.
  intros Hk Hres.
  destruct (methods_run HTTP_METHODS w Hk Hres) as (rss & w' & Hruns & ? & ? & ?).
  exists rss, w'. split; [|done].
  unfold class_routes. apply for_each_runs in Hruns.
  by rewrite (bind_Ok _ _ _ _ _ Hruns).
Qed.

End AllMethods.

(** A list without repetition whose elements all equal [a] is [[a]]. *)
Lemma NoDup_singleton_eq {A} (l : list A) (a : A) :
  NoDup l -> (forall x, x ∈ l <-> x = a) -> l = [a].
Proof.
  intros Hnd Hl. destruct l as [|x l].
  - exfalso. eapply not_elem_of_nil, Hl. reflexivity.
  - assert (x = a) as -> by (apply Hl; left).
    destruct l as [|y l]; [done|].
    assert (y = a) as -> by (apply Hl; right; left).
    apply NoDup_cons in Hnd as [Hnd _]. exfalso. apply Hnd. left.
Qed.

Lemma list_set_singleton `{so : SetOrder} (l : list Entry) (a : Entry) :
  (forall x, x ∈ l <-> x = a) -> list_set l = [a].
Proof.
  intros Hl. apply NoDup_singleton_eq; [apply list_set_NoDup|].
  intros x. rewrite list_set_elem_of. apply Hl.
Qed.

(** ** A class without routing metadata *)

Section PlainClass.

Context `{so : SetOrder}.
Variables (m : Module) (module_name cls_name : string).
Variables (c : cls_ref) (k : Class) (args : list string).
Hypothesis Hc : mod_attrs m !! cls_name = Some c.
Hypothesis Hend : _tj_end_pattern k = [].
Hypothesis Hpat : _tj_pattern k = PatList [].
Hypothesis Hauto : _tj_no_auto_route k = false.
Hypothesis Hbase : _tj_route_base k = false.

Lemma method_entries_plain urls :
  urls = [] ->
  method_entries module_name cls_name c k args urls
  = [Url (format_route module_name cls_name args (Auto auto_self))].
Proof.
  intros ->. unfold method_entries, auto_urls.
  by rewrite Hend, Hauto, Hbase.
Qed.

(** When the HTTP methods that the class defines all take [args], and
    there is at least one, the class gets the one self-named url. *)
Lemma class_routes_plain w :
  classes w !! c = Some k ->
  (forall mn, mn ∈ HTTP_METHODS -> exists a,
      cls_attrs k !! mn = Some a /\
      (in_vars a && is_method a = true ->
       filter (fun x => x ≠ "self") (argspec a) = args)) ->
  (exists mn a, mn ∈ HTTP_METHODS /\ cls_attrs k !! mn = Some a /\
                in_vars a && is_method a = true) ->
  class_routes m module_name cls_name w
  = (Ok [Url (format_route module_name cls_name args (Auto auto_self))], w).
Proof.
  intros Hk Hall (mn0 & a0 & Hin0 & Ha0 & Himpl0).
  destruct (class_routes_Ok m module_name cls_name c k Hc w Hk)
    as (rss & w' & Heq & _ & Hrss & Hw').
  { intros mn Hmn. destruct (Hall mn Hmn) as (a & -> & _). by eexists. }
  rewrite Heq, (Hw' _ Hpat). f_equal. f_equal.
  apply list_set_singleton. intros x. rewrite list_elem_of_In, in_concat.
  split.
  - intros (rs & Hrs & Hx). apply list_elem_of_In in Hrs.
    apply list_elem_of_lookup in Hrs as [i Hi].
    destruct (Forall2_lookup_r _ _ _ _ _ Hrss Hi) as (mn & Hmn & a & wi & Ha & _ & ->).
    destruct (Hall mn ltac:(by eapply list_elem_of_lookup_2)) as (a' & Ha' & Hargs).
    rewrite Ha in Ha'. injection Ha' as <-.
    destruct (in_vars a && is_method a); [|by destruct Hx].
    rewrite (Hargs eq_refl), method_entries_plain in Hx by (by rewrite Hpat).
    by destruct Hx as [<-|[]].
  - intros ->. apply list_elem_of_lookup in Hin0 as [i Hi].
    destruct (Forall2_lookup_l _ _ _ _ _ Hrss Hi) as (rs & Hrs & a & wi & Ha & _ & ->).
    rewrite Ha0 in Ha. injection Ha as <-. rewrite Himpl0 in Hrs.
    destruct (Hall mn0 ltac:(by eapply list_elem_of_lookup_2)) as (a' & Ha' & Hargs).
    rewrite Ha0 in Ha'. injection Ha' as <-.
    rewrite (Hargs Himpl0), method_entries_plain in Hrs by (by rewrite Hpat).
    eexists. split; [eapply list_elem_of_In, list_elem_of_lookup_2, Hrs|]. by left.
Qed.

End PlainClass.

(** ** Strings *)

Lemma append_nil_l (s : string) : "" +:+ s = s.
Proof. reflexivity. Qed.

Lemma append_cons (c : ascii) (s t : string) : String c s +:+ t = String c (s +:+ t).
Proof. reflexivity. Qed.

Lemma append_assoc (s1 s2 s3 : string) : (s1 +:+ s2) +:+ s3 = s1 +:+ s2 +:+ s3.
Proof.
  induction s1 as [|c s1 IH]; [done|].
  rewrite !append_cons. by f_equal.
Qed.

Lemma append_empty_r (s : string) : s +:+ "" = s.
Proof.
  induction s as [|c s IH]; [done|].
  rewrite append_cons. by f_equal.
Qed.

Lemma snoc_append (s : string) (c : ascii) (t : string) :
  snoc s c +:+ t = s +:+ String c t.
Proof. unfold snoc. by rewrite append_assoc. Qed.

Lemma endswith_cons (c : ascii) (s suf : string) :
  PyStr.endswith (String c s) suf
  = if String.eqb (String c s) suf then true else PyStr.endswith s suf.
Proof. reflexivity. Qed.

Lemma endswith_append (s suf : string) : PyStr.endswith (s +:+ suf) suf = true.
Proof.
  induction s as [|c s IH].
  - rewrite append_nil_l.
    destruct suf; simpl; by rewrite ?Ascii.eqb_refl, ?String.eqb_refl.
  - rewrite append_cons, endswith_cons, IH. by destruct (String.eqb _ _).
Qed.

(** ** The argument route read back *)

Lemma word_char_not_gt (c : ascii) : word_char c = true -> Ascii.eqb c ">" = false.
Proof.
  intros H. destruct (Ascii.eqb_spec c ">") as [->|]; [|done].
  by vm_compute in H.
Qed.

Lemma scan_name (name rest acc : string) :
  word name = true ->
  scan (name +:+ rest) (InName acc) = scan rest (InName (acc +:+ name)).
Proof.
  revert acc. induction name as [|c name IH]; intros acc H.
  - by rewrite append_nil_l, append_empty_r.
  - simpl in H. apply andb_prop in H as [Hc H].
    rewrite append_cons. simpl.
    rewrite (word_char_not_gt c Hc), IH by done. by rewrite snoc_append.
Qed.

Lemma scan_capture (argname rest : string) (seen : nat) :
  word argname = true ->
  scan (capture argname +:+ rest) (Outside seen)
  = (argname, "[a-zA-Z0-9_]+") :: scan rest (Outside 0).
Proof.
  intros H. unfold capture. rewrite !append_assoc.
  rewrite !append_cons, append_nil_l. simpl.
  rewrite scan_name by done. destruct seen as [|[|[|[|]]]]; reflexivity.
Qed.

Lemma scan_slash (s : string) : scan (String "/" s) (Outside 0) = scan s (Outside 0).
Proof. reflexivity. Qed.

Lemma scan_join (args : list string) (rest : string) :
  Forall (fun a => word a = true) args ->
  scan (PyStr.join "/" (map capture args) +:+ String "/" rest) (Outside 0)
  = map (fun a => (a, "[a-zA-Z0-9_]+")) args ++ scan rest (Outside 0).
Proof.
  induction 1 as [|a args Ha Hargs IH]; [done|].
  destruct args as [|b args].
  - simpl PyStr.join. by rewrite scan_capture.
  - change (PyStr.join "/" (map capture (a :: b :: args)))
      with (capture a +:+ "/" +:+ PyStr.join "/" (map capture (b :: args))).
    rewrite !append_assoc, scan_capture by done.
    rewrite append_cons, append_nil_l, scan_slash, IH. reflexivity.
Qed.

(** ** Modules *)

Lemma import_module_Ok n m w :
  sys_modules w !! n = Some m -> import_module n w = (Ok m, w).
Proof. intros H. unfold import_module. by rewrite H. Qed.

Lemma import_module_Raise n w :
  sys_modules w !! n = None -> import_module n w = (Raise (ImportError n), w).
Proof. intros H. unfold import_module. by rewrite H. Qed.

(** A module whose one class is a handler, called as [get_routes] does:
    its routes are those of the class. *)
Lemma get_module_routes_one_class `{so : SetOrder} n m cls_name w r w' :
  sys_modules w !! n = Some m ->
  mod_rhs m = [(cls_name, true)] ->
  class_routes m n cls_name w = (Ok r, w') ->
  get_module_routes n None None w = (Ok r, w').
Proof.
  intros Hm Hrhs Hr. unfold get_module_routes. simpl.
  rewrite (bind_Ok _ _ _ _ _ (import_module_Ok n m w Hm)).
  rewrite (bind_Ok _ _ _ _ _ (eq_refl : ret [] w = (Ok [], w))).
  rewrite Hrhs. simpl. unfold bind at 1. unfold bind at 1. rewrite Hr.
  simpl. unfold ret. by rewrite !app_nil_r.
Qed.

(** ** The claims on plain handlers *)

(** C8: a handler that defines both [get] and [post], each of the
    receiver alone, with auto-routing on and no other metadata, gets
    exactly one self-named auto-route: the same url, produced once for
    each of its HTTP methods, is kept once. *)
Theorem get_and_post_give_one_auto_route `{so : SetOrder}
    (m : Module) (module_name cls_name : string) (c : cls_ref) (k : Class)
    (w : World) (get post : Attr) :
  mod_attrs m !! cls_name = Some c ->
  classes w !! c = Some k ->
  cls_attrs k !! "get" = Some get -> in_vars get && is_method get = true ->
  cls_attrs k !! "post" = Some post -> in_vars post && is_method post = true ->
  (forall mn, mn ∈ HTTP_METHODS -> exists a,
      cls_attrs k !! mn = Some a /\
      (in_vars a && is_method a = true ->
       filter (fun x => x ≠ "self") (argspec a) = [])) ->
  _tj_no_auto_route k = false -> _tj_route_base k = false ->
  _tj_end_pattern k = [] -> _tj_pattern k = PatList [] ->
  class_routes m module_name cls_name w
  = (Ok [Url (get_module_path module_name
              +:+ get_handler_name cls_name (Auto auto_self) +:+ "/?")], w).
Proof.
  intros Hc Hk Hget Hget' Hpost Hpost' Hall Hauto Hbase Hend Hpat.
  apply (class_routes_plain m module_name cls_name c k [] Hc Hend Hpat Hauto Hbase w Hk Hall).
  exists "get", get. split; [|done]. unfold HTTP_METHODS. left.
Qed.

Lemma get_and_post_give_one_auto_route_witness :
  class_routes (so := insertion_order) Sample.getpost "api.getpost"
    "GetPostHandler" Sample.getpost_world
  = (Ok [Url "/getpost/getpost/?"], Sample.getpost_world).
Proof.
  apply (get_and_post_give_one_auto_route Sample.getpost "api.getpost"
           "GetPostHandler" 0 Sample.GetPostHandler Sample.getpost_world
           (Sample.defined []) (Sample.defined []));
    try reflexivity.
  intros mn Hmn. unfold HTTP_METHODS in Hmn.
  repeat (apply elem_of_cons in Hmn as [->|Hmn]);
    try (eexists; split; [vm_compute; reflexivity|intros _; reflexivity]).
  by apply elem_of_nil in Hmn.
Defined.

(** C1, as the code has it: the handler [HelloWorldHandler] of the module
    [api.helloworld], which defines [get] of the receiver alone and has
    no routing metadata, gets exactly one route, and its pattern is
    ["/helloworld/helloworld/?"]: the module segment ["/helloworld"], the
    self-name ["/helloworld"] and the terminator ["/?"], which carries no
    anchor. *)
Theorem hello_world_route `{so : SetOrder}
    (m : Module) (c : cls_ref) (k : Class) (w : World) (get : Attr) :
  sys_modules w !! "api.helloworld" = Some m ->
  mod_rhs m = [("HelloWorldHandler", true)] ->
  mod_attrs m !! "HelloWorldHandler" = Some c ->
  classes w !! c = Some k ->
  cls_attrs k !! "get" = Some get ->
  in_vars get && is_method get = true -> argspec get = ["self"] ->
  (forall mn, mn ∈ HTTP_METHODS -> mn ≠ "get" -> exists a,
      cls_attrs k !! mn = Some a /\ in_vars a = false) ->
  _tj_no_auto_route k = false -> _tj_route_base k = false ->
  _tj_end_pattern k = [] -> _tj_pattern k = PatList [] ->
  exists e,
    get_module_routes "api.helloworld" None None w = (Ok [e], w) /\
    entry_url e = "/helloworld/helloworld/?".
Proof.
  intros Hm Hrhs Hc Hk Hget Hget' Hargs Hothers Hauto Hbase Hend Hpat.
  eexists. split.
  - eapply get_module_routes_one_class; [exact Hm|exact Hrhs|].
    apply (class_routes_plain m "api.helloworld" "HelloWorldHandler" c k []
             Hc Hend Hpat Hauto Hbase w Hk).
    + intros mn Hmn. destruct (decide (mn = "get")) as [->|Hne].
      * exists get. split; [done|]. intros _. by rewrite Hargs.
      * destruct (Hothers mn Hmn Hne) as (a & Ha & Hown).
        exists a. split; [done|]. by rewrite Hown.
    + exists "get", get. split; [|done]. left.
  - reflexivity.
Qed.

Lemma hello_world_route_witness :
  exists e,
    get_module_routes (so := insertion_order) "api.helloworld" None None
      Sample.hello_world = (Ok [e], Sample.hello_world) /\
    entry_url e = "/helloworld/helloworld/?".
Proof.
  apply (hello_world_route Sample.helloworld 0 Sample.HelloWorldHandler
           Sample.hello_world (Sample.defined []));
    try reflexivity.
  intros mn Hmn Hne. unfold HTTP_METHODS in Hmn.
  repeat (apply elem_of_cons in Hmn as [->|Hmn]);
    try done; try (eexists; split; vm_compute; reflexivity).
  by apply elem_of_nil in Hmn.
Defined.

(** C1, as the specification has it, fails: on that handler the pattern
    is not ["/helloworld/?$"]. *)
Lemma hello_world_route_not_as_specified :
  ~ exists e w',
      get_module_routes (so := insertion_order) "api.helloworld" None None
        Sample.hello_world = (Ok [e], w') /\
      entry_url e = "/helloworld/?$".
Proof.
  intros (e & w' & H & Hurl).
  vm_compute in H. injection H as <- _. discriminate Hurl.
Qed.

(** ** The package entry point *)

Lemma for_each_ext {A B} (f g : A -> M B) l w :
  (forall x w, x ∈ l -> f x w = g x w) -> for_each f l w = for_each g l w.
Proof.
  revert w. induction l as [|x l IH]; intros w H; simpl; [done|].
  unfold bind. rewrite (H x w ltac:(left)).
  destruct (g x w) as [[y|e] w1]; [|done].
  rewrite (IH w1 (fun y w Hy => H y w ltac:(by right))). done.
Qed.

(** A loop raises as soon as one of its bodies does, in whatever state
    the loop reaches it. *)
Lemma for_each_raises {A B} (f : A -> M B) (I : World -> Prop) l x w :
  x ∈ l -> I w ->
  (forall y w r w', f y w = (r, w') -> I w -> I w') ->
  (forall w, I w -> exists e w', f x w = (Raise e, w')) ->
  exists e w', for_each f l w = (Raise e, w').
Proof.
  intros Hx HI Hkeep Hraise. revert w HI.
  induction l as [|y l IH]; intros w HI; [by apply elem_of_nil in Hx|].
  simpl. unfold bind at 1. destruct (f y w) as [[b|e] w1] eqn:E.
  - apply elem_of_cons in Hx as [->|Hx].
    + destruct (Hraise w HI) as (e & w' & He). congruence.
    + destruct (IH Hx w1 (Hkeep _ _ _ _ E HI)) as (e & w' & He).
      exists e, w'. unfold bind. by rewrite He.
  - by exists e, w1.
Qed.

(** C4, as the code has it: when a submodule that the walk yields fails
    to import, [get_routes] raises: the caller gets an exception and no
    routes, those of the other submodules included. *)
Theorem failed_import_aborts_get_routes `{so : SetOrder}
    (package : Package) (w : World) (modname : string) :
  modname ∈ gen_submodule_names package w ->
  sys_modules w !! modname = None ->
  exists e w', get_routes package w = (Raise e, w').
Proof.
  intros Hin Hfail. unfold get_routes.
  destruct (for_each_raises
              (fun modname => get_module_routes modname None None)
              (fun w1 => sys_modules w1 = sys_modules w)
              (gen_submodule_names package w) modname w Hin eq_refl)
    as (e & w' & He).
  - intros y w1 r w2 Hy HI.
    destruct (preserves_get_module_routes y None None w1 r w2 Hy) as [-> _]. done.
  - intros w1 HI. exists (ImportError modname), w1.
    unfold get_module_routes. simpl. apply bind_Raise, import_module_Raise.
    by rewrite HI.
  - exists e, w'. by rewrite (bind_Raise _ _ _ _ _ He).
Qed.

Lemma failed_import_aborts_get_routes_witness :
  exists e w',
    get_routes (so := insertion_order) Sample.api Sample.hello_world = (Raise e, w').
Proof.
  apply (failed_import_aborts_get_routes Sample.api Sample.hello_world "api.broken").
  - vm_compute. right. left.
  - reflexivity.
Defined.

(** C4, as the specification has it, fails: with the module
    [api.helloworld] in order and the module [api.broken] failing to
    import, [get_routes] returns no routes at all, and the caller gets
    the [ImportError]. *)
Lemma failed_import_is_not_skipped :
  ~ exists rs w',
      get_routes (so := insertion_order) Sample.api Sample.hello_world = (Ok rs, w').
Proof. intros (rs & w' & H). vm_compute in H. discriminate H. Qed.

(** C9: [get_routes] takes the package alone.  It returns exactly when
    [get_module_routes], called with neither custom routes nor
    exclusions, returns for each submodule in the order of the walk, and
    then it returns the concatenation of those results.  Such a call
    filters the classes of the module by [is_handler_subclass] alone, so
    no class is left out as excluded or as custom. *)
Theorem get_routes_is_concat_of_module_routes `{so : SetOrder}
    (package : Package) (w : World) :
  (forall rs w',
      get_routes package w = (Ok rs, w') <->
      exists rss,
        runs (fun modname => get_module_routes modname None None)
             (gen_submodule_names package w) w rss w' /\
        rs = concat rss)
  /\ (forall modname,
         get_module_routes modname None None
         = get_module_routes modname (Some []) (Some []))
  /\ (forall modname m w1,
         sys_modules w1 !! modname = Some m ->
         get_module_routes modname None None w1
         = (rss <- for_each
                     (fun item : string * bool => if item.2 then class_routes m modname item.1
                                  else ret [])
                     (mod_rhs m) ;;
            ret (concat rss)) w1).
Proof.
  split; [|split].
  - intros rs w'. unfold get_routes. split.
    + intros H. apply bind_Ok_inv in H as (rss & w1 & Hrss & H).
      injection H as <- <-. exists rss. split; [|done]. by apply for_each_runs.
    + intros (rss & Hruns & ->). apply for_each_runs in Hruns.
      by rewrite (bind_Ok _ _ _ _ _ Hruns).
  - reflexivity.
  - intros modname m w1 Hm. unfold get_module_routes. simpl.
    rewrite (bind_Ok _ _ _ _ _ (import_module_Ok modname m w1 Hm)).
    rewrite (bind_Ok _ _ _ _ _ (eq_refl : ret [] w1 = (Ok [], w1))).
    unfold bind.
    rewrite (for_each_ext _
               (fun item : string * bool => if item.2 then class_routes m modname item.1 else ret [])).
    + destruct (for_each _ _ _) as [[rss|e] w2]; [|done].
      unfold ret. by rewrite app_nil_r.
    + intros [cls_name b] w2 _. simpl. by rewrite andb_true_r.
Qed.

Lemma get_routes_is_concat_of_module_routes_witness :
  get_routes (so := insertion_order) Sample.hello_api Sample.hello_world
  = (Ok [Url "/helloworld/helloworld/?"], Sample.hello_world).
Proof.
  apply (proj1 (get_routes_is_concat_of_module_routes
                  Sample.hello_api Sample.hello_world)).
  exists [[Url "/helloworld/helloworld/?"]]. split; [|reflexivity].
  eapply (runs_cons _ "api.helloworld" []); [|constructor].
  vm_compute. reflexivity.
Defined.

(** ** The routes of one class, element by element *)

Lemma method_entries_split module_name cls_name c k args urls x :
  x ∈ method_entries module_name cls_name c k args urls <->
  x ∈ method_entries module_name cls_name c k args [] \/
  x ∈ map (fun u => Pair u c) urls.
Proof.
  unfold method_entries. simpl. rewrite !elem_of_app. tauto.
Qed.

Lemma consume_consume p w : consume p (consume p w) = consume p w.
Proof.
  destruct p as [l|it]; [done|]. unfold consume, set_iters. simpl.
  f_equal. apply list_insert_insert_eq.
Qed.

Lemma read_consume p w x :
  x ∈ read_patterns p (consume p w) -> x ∈ read_patterns p w.
Proof.
  destruct p as [l|it]; [done|]. simpl.
  destruct (decide (it < length (iters w))) as [Hlt|Hge].
  - rewrite list_lookup_insert_eq by done. simpl. by intros ?%elem_of_nil.
  - by rewrite list_insert_ge by lia.
Qed.

Section ClassEntries.

Context `{so : SetOrder}.
Variables (m : Module) (module_name cls_name : string).
Variables (c : cls_ref) (k : Class).
Hypothesis Hc : mod_attrs m !! cls_name = Some c.

Lemma methods_run_elems ms w :
  classes w !! c = Some k ->
  (forall mn, mn ∈ ms -> is_Some (cls_attrs k !! mn)) ->
  exists rss,
    runs (method_body m module_name cls_name) ms w rss
         (if defines_any k ms then consume (_tj_pattern k) w else w) /\
    forall x,
      x ∈ concat rss <->
      fixed_entry module_name cls_name c k ms x \/
      (defines_any k ms = true /\
       x ∈ map (fun u => Pair u c) (read_patterns (_tj_pattern k) w)).
Proof.
  revert w. induction ms as [|mn ms IH]; intros w Hk Hres.
  - exists []. split; [constructor|]. intros x. simpl. split.
    + by intros ?%elem_of_nil.
    + intros [(mn & a & Hmn & _)|[? _]]; [by apply elem_of_nil in Hmn|done].
  - destruct (Hres mn ltac:(left)) as [a Ha].
    assert (Hres' : forall mn', mn' ∈ ms -> is_Some (cls_attrs k !! mn'))
      by (intros mn' Hmn'; apply Hres; by right).
    simpl defines_any. rewrite Ha.
    destruct (in_vars a && is_method a) eqn:Himpl; simpl.
    + assert (Hk1 : classes (consume (_tj_pattern k) w) !! c = Some k)
        by by rewrite consume_classes.
      destruct (IH _ Hk1 Hres') as (rss & Hruns & Hel).
      exists (method_entries module_name cls_name c k
                (filter (fun x => x ≠ "self") (argspec a))
                (read_patterns (_tj_pattern k) w) :: rss).
      split.
      * econstructor.
        -- unfold method_body.
           rewrite (bind_Ok _ _ _ _ _ (has_method_Ok m cls_name c k Hc w mn a Hk Ha)).
           rewrite Himpl.
           apply (method_routes_Ok m module_name cls_name c k Hc w mn a Hk Ha).
        -- rewrite consume_consume in Hruns.
           by destruct (defines_any k ms).
      * intros x. simpl. rewrite elem_of_app, method_entries_split, Hel.
        split.
        -- intros [[Hx|Hx]|[Hx|[Hany Hx]]].
           ++ left. exists mn, a. split; [left|done].
           ++ right. done.
           ++ left. destruct Hx as (mn' & a' & Hmn' & Hrest).
              exists mn', a'. split; [by right|done].
           ++ right. split; [done|].
              apply list_elem_of_fmap in Hx as (u & -> & Hu).
              apply (list_elem_of_fmap_2 (fun u => Pair u c)). by apply read_consume.
        -- intros [(mn' & a' & Hmn' & Ha' & Himpl' & Hx)|[_ Hx]].
           ++ apply elem_of_cons in Hmn' as [->|Hmn'].
              ** rewrite Ha in Ha'. injection Ha' as <-. by left; left.
              ** right. left. by exists mn', a'.
           ++ by left; right.
    + destruct (IH w Hk Hres') as (rss & Hruns & Hel).
      exists ([] :: rss). split.
      * econstructor; [|exact Hruns]. unfold method_body.
        rewrite (bind_Ok _ _ _ _ _ (has_method_Ok m cls_name c k Hc w mn a Hk Ha)).
        by rewrite Himpl.
      * intros x. simpl. rewrite Hel. split.
        -- intros [(mn' & a' & Hmn' & Hrest)|Hx]; [|by right].
           left. exists mn', a'. split; [by right|done].
        -- intros [(mn' & a' & Hmn' & Ha' & Himpl' & Hx)|Hx]; [|by right].
           apply elem_of_cons in Hmn' as [->|Hmn'].
           ++ rewrite Ha in Ha'. injection Ha' as <-. congruence.
           ++ left. by exists mn', a'.
Qed.

(** The routes of a class that resolves every HTTP method name. *)
Lemma class_routes_elems w :
  classes w !! c = Some k ->
  (forall mn, mn ∈ HTTP_METHODS -> is_Some (cls_attrs k !! mn)) ->
  exists rs,
    class_routes m module_name cls_name w
    = (Ok rs, if defines_any k HTTP_METHODS
              then consume (_tj_pattern k) w else w) /\
    NoDup rs /\
    forall x,
      x ∈ rs <->
      fixed_entry module_name cls_name c k HTTP_METHODS x \/
      (defines_any k HTTP_METHODS = true /\
       x ∈ map (fun u => Pair u c) (read_patterns (_tj_pattern k) w)).
Proof.
  intros Hk Hres.
  destruct (methods_run_elems HTTP_METHODS w Hk Hres) as (rss & Hruns & Hel).
  exists (list_set (concat rss)). split; [|split].
  - unfold class_routes. apply for_each_runs in Hruns.
    by rewrite (bind_Ok _ _ _ _ _ Hruns).
  - apply list_set_NoDup.
  - intros x. rewrite list_set_elem_of. apply Hel.
Qed.

End ClassEntries.

(** ** End patterns *)

Lemma elem_of_concat {A} (x : A) (ls : list (list A)) :
  x ∈ concat ls <-> exists l, l ∈ ls /\ x ∈ l.
Proof.
  rewrite list_elem_of_In, in_concat. split.
  - intros (l & Hl & Hx). exists l. by rewrite !list_elem_of_In.
  - intros (l & Hl & Hx). exists l. by rewrite <- !list_elem_of_In.
Qed.

Lemma format_route_Name module_name cls_name args e :
  format_route module_name cls_name args (Name e)
  = get_module_path module_name +:+ ("/" +:+ e) +:+ get_arg_route args.
Proof. reflexivity. Qed.

(** C5, as the code has it: for a handler with end patterns, every entry
    and every HTTP method the handler defines give a route whose name
    segment is the entry as it was given, after a slash, and whose path is
    the module segment, that name segment and the argument segment of the
    method; the tuples among the routes of the class are exactly these
    routes and, when the handler defines an HTTP method, the custom
    patterns that [_tj_pattern] holds when the synthesis starts, and they
    map to the class. *)
Theorem end_pattern_routes_are_verbatim `{so : SetOrder}
    (m : Module) (module_name cls_name : string) (c : cls_ref) (k : Class)
    (w : World) :
  mod_attrs m !! cls_name = Some c ->
  classes w !! c = Some k ->
  (forall mn, mn ∈ HTTP_METHODS -> is_Some (cls_attrs k !! mn)) ->
  exists rs w',
    class_routes m module_name cls_name w = (Ok rs, w') /\
    (forall e mn a,
        e ∈ _tj_end_pattern k -> mn ∈ HTTP_METHODS ->
        cls_attrs k !! mn = Some a -> in_vars a && is_method a = true ->
        Pair (get_module_path module_name +:+ ("/" +:+ e)
              +:+ get_arg_route (filter (fun x => x ≠ "self") (argspec a))) c
        ∈ rs) /\
    (forall u h,
        Pair u h ∈ rs <->
        h = c /\
        ((exists e mn a,
             e ∈ _tj_end_pattern k /\ mn ∈ HTTP_METHODS /\
             cls_attrs k !! mn = Some a /\ in_vars a && is_method a = true /\
             u = get_module_path module_name +:+ ("/" +:+ e)
                 +:+ get_arg_route (filter (fun x => x ≠ "self") (argspec a)))
         \/ (defines_any k HTTP_METHODS = true /\
             u ∈ read_patterns (_tj_pattern k) w))).
Proof.
  intros Hc Hk Hres.
  destruct (class_routes_elems m module_name cls_name c k Hc w Hk Hres)
    as (rs & Heq & _ & Hel).
  assert (Htuple : forall u h,
             Pair u h ∈ rs <->
             h = c /\
             ((exists e mn a,
                  e ∈ _tj_end_pattern k /\ mn ∈ HTTP_METHODS /\
                  cls_attrs k !! mn = Some a /\ in_vars a && is_method a = true /\
                  u = get_module_path module_name +:+ ("/" +:+ e)
                      +:+ get_arg_route (filter (fun x => x ≠ "self") (argspec a)))
              \/ (defines_any k HTTP_METHODS = true /\
                  u ∈ read_patterns (_tj_pattern k) w))).
  { intros u h. rewrite Hel. split.
    - intros [(mn & a & Hmn & Ha & Himpl & Hx)|[Hany Hx]].
      + unfold method_entries in Hx. simpl in Hx.
        apply elem_of_app in Hx as [Hx|Hx].
        * apply list_elem_of_fmap in Hx as (e & [= -> ->] & He).
          split; [done|]. left. by exists e, mn, a.
        * apply list_elem_of_fmap in Hx as (u' & Hu' & _). discriminate Hu'.
      + apply list_elem_of_fmap in Hx as (u' & [= -> ->] & Hu').
        split; [done|]. by right.
    - intros [-> [(e & mn & a & He & Hmn & Ha & Himpl & ->)|[Hany Hu]]].
      + left. exists mn, a. split; [done|]. split; [done|]. split; [done|].
        unfold method_entries. apply elem_of_app. left.
        rewrite <- (format_route_Name module_name cls_name).
        by apply (list_elem_of_fmap_2
                    (fun e => Pair (format_route module_name cls_name _ (Name e)) c)).
      + right. split; [done|].
        by apply (list_elem_of_fmap_2 (fun u => Pair u c)). }
  eexists rs, _. split; [exact Heq|]. split; [|exact Htuple].
  intros e mn a He Hmn Ha Himpl. apply Htuple. split; [done|].
  left. by exists e, mn, a.
Qed.

Lemma end_pattern_routes_are_verbatim_witness :
  exists rs w',
    class_routes (so := insertion_order) Sample.helloworld "api.helloworld"
      "HelloWorldHandler" Sample.ended_world = (Ok rs, w') /\
    Pair "/helloworld/foo/?" 0 ∈ rs /\
    Pair (spec_end_pattern_route "api.helloworld" "foo" []) 0 ∉ rs.
Proof.
  destruct (end_pattern_routes_are_verbatim Sample.helloworld "api.helloworld"
              "HelloWorldHandler" 0
              (mkClass "HelloWorldHandler" (cls_attrs Sample.HelloWorldHandler)
                       ["foo"] (PatMap 0) true false)
              Sample.ended_world eq_refl eq_refl)
    as (rs & w' & Heq & Hin & Hiff).
  - intros mn Hmn. unfold HTTP_METHODS in Hmn.
    repeat (apply elem_of_cons in Hmn as [->|Hmn]);
      try (eexists; vm_compute; reflexivity).
    by apply elem_of_nil in Hmn.
  - exists rs, w'. split; [exact Heq|]. split.
    + apply (Hin "foo" "get" (Sample.defined [])); [left|left|reflexivity|reflexivity].
    + intros H. apply Hiff in H as [_ [(e & mn & a & He & Hmn & Ha & Himpl & Hu)|[_ Hu]]].
      * apply list_elem_of_singleton in He as ->. unfold HTTP_METHODS in Hmn.
        repeat (apply elem_of_cons in Hmn as [->|Hmn]);
          try (vm_compute in Ha; injection Ha as <-; vm_compute in Hu; discriminate Hu).
        by apply elem_of_nil in Hmn.
      * vm_compute in Hu. by apply elem_of_nil in Hu.
Defined.

(** C5, as the specification has it, fails: under
    [@route(end_pattern="foo")] the route is ["/helloworld/foo/?"], with
    the entry as given; the path built from the sanitized entry is not
    among the routes. *)
Lemma end_pattern_route_is_not_sanitized :
  (get_module_routes (so := insertion_order) "api.helloworld" None None
     Sample.ended_world).1 = Ok [Pair "/helloworld/foo/?" 0]
  /\ Pair (spec_end_pattern_route "api.helloworld" "foo" []) 0
     ∉ [Pair "/helloworld/foo/?" 0].
Proof.
  split; [by vm_compute|].
  intros H. apply list_elem_of_singleton in H. vm_compute in H. discriminate H.
Qed.

(** ** Runs without [map] objects *)

Lemma stable_ret {A} (a : A) : stable (ret a).
Proof. by intros w r w' _ [= _ <-]. Qed.

Lemma stable_raise {A} e : stable (@raise A e).
Proof. by intros w r w' _ [= _ <-]. Qed.

Lemma stable_bind {A B} (m : M A) (k : A -> M B) :
  stable m -> (forall a, stable (k a)) -> stable (bind m k).
Proof.
  intros Hm Hk w r w' Hw. unfold bind.
  destruct (m w) as [[a|e] w1] eqn:E; intros H.
  - rewrite (Hm _ _ _ Hw E) in H. by eapply Hk.
  - injection H as _ <-. by eapply Hm.
Qed.

Lemma stable_for_each {A B} (f : A -> M B) l :
  (forall x, stable (f x)) -> stable (for_each f l).
Proof.
  intros Hf. induction l as [|x l IH]; simpl.
  - apply stable_ret.
  - apply stable_bind; [apply Hf|]. intros y.
    apply stable_bind; [apply IH|]. intros ys. apply stable_ret.
Qed.

Lemma stable_if {A} (b : bool) (m1 m2 : M A) :
  stable m1 -> stable m2 -> stable (if b then m1 else m2).
Proof. by destruct b. Qed.

Lemma stable_import_module n : stable (import_module n).
Proof.
  intros w r w' _. unfold import_module.
  by destruct (sys_modules w !! n); intros [= _ <-].
Qed.

Lemma stable_getattr_class m cls_name : stable (getattr_class m cls_name).
Proof.
  intros w r w' _. unfold getattr_class.
  by destruct (mod_attrs m !! cls_name) as [c|]; [destruct (classes w !! c)|];
    intros [= _ <-].
Qed.

Lemma stable_class_name c : stable (class_name c).
Proof.
  intros w r w' _. unfold class_name.
  by destruct (classes w !! c); intros [= _ <-].
Qed.

(** What [getattr(module, cls_name)] returns in a state without [map]
    objects holds its patterns in a list. *)
Lemma stable_bind_class {B} m cls_name (k : cls_ref * Class -> M B) :
  (forall h l, _tj_pattern h.2 = PatList l -> stable (k h)) ->
  stable (bind (getattr_class m cls_name) k).
Proof.
  intros Hk w r w' Hw. unfold bind, getattr_class.
  destruct (mod_attrs m !! cls_name) as [c|]; [|by intros [= _ <-]].
  destruct (classes w !! c) as [k0|] eqn:E; [|by intros [= _ <-]].
  destruct (Hw c k0 E) as [l Hl]. by apply (Hk (c, k0) l Hl).
Qed.

Create HintDb stable.
#[local] Hint Resolve stable_ret stable_raise stable_import_module
  stable_getattr_class stable_class_name : stable.
#[local] Hint Extern 2 (stable (bind _ _)) =>
  apply stable_bind; [|intros ?] : stable.
#[local] Hint Extern 2 (stable (for_each _ _)) =>
  apply stable_for_each; intros ? : stable.
#[local] Hint Extern 2 (stable (if _ then _ else _)) =>
  apply stable_if : stable.
#[local] Hint Extern 3 (stable (match ?x with _ => _ end)) =>
  destruct x : stable.

Lemma stable_getattr_method m cls_name method_name :
  stable (getattr_method m cls_name method_name).
Proof. unfold getattr_method. auto with stable. Qed.
#[local] Hint Resolve stable_getattr_method : stable.

Lemma stable_generate_route m module_name cls_name method_name url_name :
  stable (generate_route m module_name cls_name method_name url_name).
Proof. unfold generate_route, yield_args. auto 10 with stable. Qed.
#[local] Hint Resolve stable_generate_route : stable.

Lemma stable_generate_auto_routes m module_name cls_name method_name :
  stable (generate_auto_routes m module_name cls_name method_name).
Proof. unfold generate_auto_routes. auto 10 with stable. Qed.
#[local] Hint Resolve stable_generate_auto_routes : stable.

Lemma stable_method_routes m module_name cls_name method_name :
  stable (method_routes m module_name cls_name method_name).
Proof.
  unfold method_routes.
  apply stable_bind; [auto with stable|]. intros h1.
  apply stable_bind; [auto 10 with stable|]. intros ends.
  apply stable_bind_class. intros h2 l Hl. rewrite Hl. simpl.
  auto 12 with stable.
Qed.
#[local] Hint Resolve stable_method_routes : stable.

Lemma stable_class_routes `{so : SetOrder} m module_name cls_name :
  stable (class_routes m module_name cls_name).
Proof. unfold class_routes, has_method. auto 12 with stable. Qed.
#[local] Hint Resolve stable_class_routes : stable.

Lemma stable_get_module_routes `{so : SetOrder} module_name custom_routes exclusions :
  stable (get_module_routes module_name custom_routes exclusions).
Proof. unfold get_module_routes. auto 12 with stable. Qed.

(** Where no handler holds a [map] object, a run of [get_module_routes]
    leaves the state as it found it, so that a second run returns what
    the first did. *)
Lemma get_module_routes_twice `{so : SetOrder} module_name custom_routes exclusions
    (w : World) :
  frozen w ->
  let run := get_module_routes module_name custom_routes exclusions in
  run (run w).2 = run w.
Proof.
  intros Hw run. destruct (run w) as [r w'] eqn:E. simpl.
  assert (w' = w) as -> by exact (stable_get_module_routes _ _ _ w r w' Hw E).
  exact E.
Qed.

(** ** The decorators *)

Lemma list_set_nil `{so : SetOrder} : list_set [] = [].
Proof.
  destruct (list_set []) as [|x l] eqn:E; [done|].
  exfalso. apply (not_elem_of_nil x), list_set_elem_of. rewrite E. left.
Qed.

Lemma list_set_one `{so : SetOrder} (a : Entry) : list_set [a] = [a].
Proof. apply list_set_singleton. intros x. apply list_elem_of_singleton. Qed.

(** C3 fails on the code: under [@route(pattern="/foo")] the first run of
    [get_module_routes] on the module returns the custom route, and a
    second run, on the same modules and classes, returns no route: the
    first run has read the [map] object to its end. *)
Theorem second_run_loses_custom_patterns `{so : SetOrder} :
  let run := get_module_routes "api.helloworld" None None in
  let first := run Sample.routed_world in
  let second := run first.2 in
  first.1 = Ok [Pair "/foo/?$" 0] /\
  same_code Sample.routed_world first.2 /\
  second.1 = Ok [].
Proof.
  destruct so as [ls Hnd Hel].
  pose proof (@list_set_one (Build_SetOrder ls Hnd Hel)) as Hone.
  pose proof (@list_set_nil (Build_SetOrder ls Hnd Hel)) as Hnil.
  simpl in Hone, Hnil. vm_compute. rewrite Hone, Hnil. done.
Qed.

(** C10: when [end_pattern] has a supported shape and [pattern] has not,
    applying the decorator raises [TypeError] in a state where the
    handler's [_tj_end_pattern] is already the new list, its other
    attributes being as before: the handler is changed whenever the new
    list is not the one it had. *)
Theorem route_is_not_atomic (pattern end_pattern : PyVal) (no_auto_route : bool)
    (handler : cls_ref) (w : World) (ep : list string) (k : Class) :
  _transform_attr end_pattern = Ok ep ->
  supported pattern = false ->
  classes w !! handler = Some k ->
  exists w',
    route pattern end_pattern no_auto_route handler w = (Raise TypeError, w') /\
    classes w' !! handler
    = Some (mkClass (cls__name__ k) (cls_attrs k) ep (_tj_pattern k)
                    (_tj_no_auto_route k) (_tj_route_base k)) /\
    iters w' = iters w /\
    (_tj_end_pattern k ≠ ep -> classes w' !! handler ≠ classes w !! handler).
Proof.
  intros Hep Hp Hk.
  exists (set_classes (alter (with_end_pattern ep) handler) w).
  assert (Hlook : classes (set_classes (alter (with_end_pattern ep) handler) w) !! handler
                  = Some (with_end_pattern ep k)).
  { simpl. rewrite list_lookup_alter, decide_True by done.
    exact (f_equal (fmap (with_end_pattern ep)) Hk). }
  split; [|split; [exact Hlook|split; [done|]]].
  - unfold route, _route, lift, bind, setattr. rewrite Hep.
    destruct pattern; try discriminate Hp; reflexivity.
  - intros Hne. rewrite Hlook, Hk. intros [= H]. apply Hne.
    by rewrite <- H.
Qed.

Lemma route_is_not_atomic_witness :
  exists w',
    route (VInt 3) (VStr "foo") true 0 Sample.hello_world = (Raise TypeError, w') /\
    classes w' !! 0
    = Some (mkClass "HelloWorldHandler" (cls_attrs Sample.HelloWorldHandler)
                    ["foo"] (PatList []) false false) /\
    iters w' = iters Sample.hello_world /\
    ([] ≠ ["foo"] -> classes w' !! 0 ≠ classes Sample.hello_world !! 0).
Proof.
  apply (route_is_not_atomic (VInt 3) (VStr "foo") true 0 Sample.hello_world
           ["foo"] Sample.HelloWorldHandler); reflexivity.
Defined.

(** C6: [_transform_attr] raises exactly on a value that is neither a
    string, nor a list or a tuple, nor [None], and what it raises is
    [TypeError]; otherwise a string becomes the list of that one string,
    [None] the empty list, and a list or a tuple the list of its
    elements.  So applying the decorator raises [TypeError] exactly when
    [pattern] or [end_pattern] has no supported shape. *)
Theorem transform_attr_shapes :
  (forall attr, (exists e, _transform_attr attr = Raise e) <-> supported attr = false)
  /\ (forall attr e, _transform_attr attr = Raise e -> e = TypeError)
  /\ (forall s, _transform_attr (VStr s) = Ok [s])
  /\ _transform_attr VNone = Ok []
  /\ (forall l, _transform_attr (VList l) = Ok l /\ _transform_attr (VTuple l) = Ok l)
  /\ (forall pattern end_pattern no_auto_route handler w,
         (exists e w', route pattern end_pattern no_auto_route handler w = (Raise e, w'))
         <-> supported pattern = false \/ supported end_pattern = false)
  /\ (forall pattern end_pattern no_auto_route handler w e w',
         route pattern end_pattern no_auto_route handler w = (Raise e, w') ->
         e = TypeError).
Proof.
  split; [|split; [|split; [|split; [|split; [|split]]]]]; try done.
  - intros attr. split.
    + intros [e H]. by destruct attr.
    + intros H. exists TypeError. by destruct attr.
  - intros attr e H. destruct attr; simpl in H; congruence.
  - intros pattern end_pattern no_auto_route handler w.
    unfold route, _route, lift, bind, setattr, new_map, ret. split.
    + intros (e & w' & H).
      destruct end_pattern, pattern; simpl in *; try discriminate H; auto.
    + intros [H|H].
      * destruct end_pattern; simpl; try (by eexists _, _);
          destruct pattern; simpl in *; try discriminate H; by eexists _, _.
      * destruct end_pattern; simpl in *; try discriminate H; by eexists _, _.
  - intros pattern end_pattern no_auto_route handler w e w'.
    unfold route, _route, lift, bind, setattr, new_map, ret.
    destruct end_pattern, pattern; simpl; congruence.
Qed.

(** ** The naming rules *)

Lemma replace1_cons (old new : string) (c : ascii) (s : string) :
  PyStr.replace1 old new (String c s)
  = if PyStr.startswith (String c s) old
    then new +:+ PyStr.drop (String.length old) (String c s)
    else String c (PyStr.replace1 old new s).
Proof. reflexivity. Qed.

Lemma length_append (s t : string) :
  String.length (s +:+ t) = String.length s + String.length t.
Proof.
  induction s as [|c s IH]; [done|].
  rewrite append_cons. simpl. by rewrite IH.
Qed.

Lemma substring_append (s t : string) :
  String.substring 0 (String.length s) (s +:+ t) = s.
Proof.
  induction s as [|c s IH].
  - rewrite append_nil_l. by destruct t.
  - rewrite append_cons. simpl. by rewrite IH.
Qed.

(** When the first ["handler"] of a string is the one it ends with,
    removing the first is cutting off the last. *)
Lemma replace1_last (p : string) :
  (forall i, i < String.length p ->
     PyStr.startswith (PyStr.drop i (p +:+ "handler")) "handler" = false) ->
  PyStr.replace1 "handler" "" (p +:+ "handler") = p.
Proof.
  induction p as [|c p IH]; intros H; [done|].
  pose proof (H 0 ltac:(simpl; lia)) as H0.
  change (PyStr.startswith (String c p +:+ "handler") "handler" = false) in H0.
  rewrite append_cons in H0 |- *. rewrite replace1_cons, H0.
  f_equal. apply IH. intros i Hi. apply (H (S i)). simpl. lia.
Qed.

(** The naming rule of the code and that of the specification agree on
    every class name whose lowercase form holds ["handler"] at its end
    and nowhere before. *)
Lemma self_name_agrees (cls_name p : string) :
  PyStr.lower cls_name = p +:+ "handler" ->
  (forall i, i < String.length p ->
     PyStr.startswith (PyStr.drop i (p +:+ "handler")) "handler" = false) ->
  get_handler_name cls_name (Auto auto_self) = "/" +:+ p
  /\ spec_segment_for_self cls_name = p.
Proof.
  intros Hl H. unfold get_handler_name, spec_segment_for_self.
  rewrite Hl, endswith_append, (replace1_last p H), length_append.
  split; [done|].
  replace (String.length p + String.length "handler" - 7) with (String.length p)
    by (simpl; lia).
  apply substring_append.
Qed.

(** C2 fails on the code: the name is lowercased and its first
    ["handler"] is removed, not its last.  On [HandlerStatsHandler] the
    code gives ["statshandler"] where the rule gives ["handlerstats"];
    the two agree on [HelloWorldHandler], and a name that does not end in
    ["handler"] is lowercased and kept whole. *)
Theorem self_name_removes_first_occurrence :
  get_handler_name "HandlerStatsHandler" (Auto auto_self) = "/statshandler"
  /\ spec_segment_for_self "HandlerStatsHandler" = "handlerstats"
  /\ get_handler_name "HelloWorldHandler" (Auto auto_self) = "/helloworld"
  /\ spec_segment_for_self "HelloWorldHandler" = "helloworld"
  /\ get_handler_name "FooBar" (Auto auto_self) = "/foobar"
  /\ (forall cls_name,
         PyStr.endswith (PyStr.lower cls_name) "handler" = false ->
         get_handler_name cls_name (Auto auto_self) = "/" +:+ PyStr.lower cls_name).
Proof.
  repeat split; try by vm_compute.
  intros cls_name H. unfold get_handler_name. by rewrite H.
Qed.

(** C7: for parameter names made of word characters, the argument route
    of a non-empty list holds one named group for each name, in the order
    of the list, each with the body [[a-zA-Z0-9_]+], and ends with
    ["/?$"]; the argument route of the empty list is ["/?"], which holds
    no group and no anchor and differs from that of every non-empty
    list. *)
Theorem get_arg_route_shape (args : list string) :
  Forall (fun a => word a = true) args ->
  args ≠ [] ->
  named_groups (get_arg_route args) = map (fun a => (a, "[a-zA-Z0-9_]+")) args
  /\ length (named_groups (get_arg_route args)) = length args
  /\ PyStr.endswith (get_arg_route args) "/?$" = true
  /\ get_arg_route [] = "/?"
  /\ named_groups (get_arg_route []) = []
  /\ PyStr.endswith (get_arg_route []) "$" = false
  /\ get_arg_route args ≠ get_arg_route [].
Proof.
  intros Hword Hne. destruct args as [|a args]; [done|clear Hne].
  assert (Hgroups : named_groups (get_arg_route (a :: args))
                    = map (fun a => (a, "[a-zA-Z0-9_]+")) (a :: args)).
  { unfold named_groups, get_arg_route.
    rewrite append_cons, append_nil_l, scan_slash.
    change (scan (PyStr.join "/" (map capture (a :: args)) +:+ String "/" "?$")
              (Outside 0) = map (fun a => (a, "[a-zA-Z0-9_]+")) (a :: args)).
    rewrite scan_join by done. simpl scan. by rewrite app_nil_r. }
  split; [exact Hgroups|]. split; [by rewrite Hgroups, length_map|].
  split; [|split; [done|split; [done|split; [done|]]]].
  - unfold get_arg_route. rewrite <- append_assoc. apply endswith_append.
  - unfold get_arg_route. rewrite append_cons, append_nil_l.
    intros [= H]. destruct args; simpl in H; unfold capture in H;
      discriminate H.
Qed.

Lemma get_arg_route_shape_witness :
  named_groups (get_arg_route ["id"; "page_no"])
  = [("id", "[a-zA-Z0-9_]+"); ("page_no", "[a-zA-Z0-9_]+")]
  /\ length (named_groups (get_arg_route ["id"; "page_no"])) = 2
  /\ PyStr.endswith (get_arg_route ["id"; "page_no"]) "/?$" = true
  /\ get_arg_route [] = "/?"
  /\ named_groups (get_arg_route []) = []
  /\ PyStr.endswith (get_arg_route []) "$" = false
  /\ get_arg_route ["id"; "page_no"] ≠ get_arg_route [].
Proof.
  apply (get_arg_route_shape ["id"; "page_no"]).
  - repeat constructor.
  - discriminate.
Defined.

(** * Further properties *)

Ltac each_method H :=
  unfold HTTP_METHODS in H;
  repeat (apply elem_of_cons in H as [->|H]);
  [..|by apply elem_of_nil in H].

(** The routes of a class that resolves every HTTP method name, as every
    subclass of [RequestHandler] does: [class_routes] returns a list
    without repetition that holds exactly the end-pattern routes and auto
    urls of the HTTP methods the class defines and, when it defines one,
    the custom patterns as the first loop over [_tj_pattern] reads them;
    that loop is run, and a [map] object emptied, exactly when the class
    defines an HTTP method. *)
Theorem class_routes_characterised `{so : SetOrder}
    (m : Module) (module_name cls_name : string) (c : cls_ref) (k : Class)
    (w : World) :
  mod_attrs m !! cls_name = Some c ->
  classes w !! c = Some k ->
  (forall mn, mn ∈ HTTP_METHODS -> is_Some (cls_attrs k !! mn)) ->
  exists rs,
    class_routes m module_name cls_name w
    = (Ok rs, if defines_any k HTTP_METHODS
              then consume (_tj_pattern k) w else w) /\
    NoDup rs /\
    forall x,
      x ∈ rs <->
      fixed_entry module_name cls_name c k HTTP_METHODS x \/
      (defines_any k HTTP_METHODS = true /\
       x ∈ map (fun u => Pair u c) (read_patterns (_tj_pattern k) w)).
Proof.
  intros Hc Hk Hres.
  destruct (methods_run_elems m module_name cls_name c k Hc HTTP_METHODS w Hk Hres)
    as (rss & Hruns & Hel).
  exists (list_set (concat rss)). split; [|split].
  - unfold class_routes. apply for_each_runs in Hruns.
    by rewrite (bind_Ok _ _ _ _ _ Hruns).
  - apply list_set_NoDup.
  - intros x. rewrite list_set_elem_of. apply Hel.
Qed.

Lemma class_routes_characterised_witness :
  exists rs,
    class_routes (so := insertion_order) Sample.helloworld "api.helloworld"
      "HelloWorldHandler" Sample.routed_world
    = (Ok rs, consume (PatMap 0) Sample.routed_world) /\
    NoDup rs /\ Pair "/foo/?$" 0 ∈ rs.
Proof.
  destruct (class_routes_characterised Sample.helloworld "api.helloworld"
              "HelloWorldHandler" 0
              (mkClass "HelloWorldHandler" (cls_attrs Sample.HelloWorldHandler)
                       [] (PatMap 0) true false)
              Sample.routed_world eq_refl eq_refl)
    as (rs & Heq & Hnd & Hel).
  - intros mn Hmn. each_method Hmn; eexists; vm_compute; reflexivity.
  - exists rs. split; [exact Heq|]. split; [exact Hnd|].
    apply Hel. right. split; [reflexivity|]. vm_compute. left.
Defined.

Lemma defines_any_false k ms :
  (forall mn, mn ∈ ms -> exists a,
      cls_attrs k !! mn = Some a /\ in_vars a && is_method a = false) ->
  defines_any k ms = false.
Proof.
  induction ms as [|mn ms IH]; intros H; [done|]. simpl.
  destruct (H mn ltac:(left)) as (a & -> & ->). simpl.
  apply IH. intros mn' Hmn'. apply H. by right.
Qed.

Lemma defines_any_true k ms mn a :
  mn ∈ ms -> cls_attrs k !! mn = Some a -> in_vars a && is_method a = true ->
  defines_any k ms = true.
Proof.
  intros Hmn Ha Himpl. unfold defines_any. apply existsb_exists.
  exists mn. split; [by apply list_elem_of_In|]. by rewrite Ha.
Qed.

Lemma NoDup_nil_eq {A} (l : list A) : (forall x, x ∉ l) -> l = [].
Proof. destruct l as [|x l]; [done|]. intros H. destruct (H x). left. Qed.

(** A handler that defines no HTTP method of its own gets no route at
    all, whatever its end patterns, custom patterns and flags are, and
    its [_tj_pattern] is not read. *)
Theorem no_defined_method_no_routes `{so : SetOrder}
    (m : Module) (module_name cls_name : string) (c : cls_ref) (k : Class)
    (w : World) :
  mod_attrs m !! cls_name = Some c ->
  classes w !! c = Some k ->
  (forall mn, mn ∈ HTTP_METHODS -> exists a,
      cls_attrs k !! mn = Some a /\ in_vars a && is_method a = false) ->
  class_routes m module_name cls_name w = (Ok [], w).
Proof.
  intros Hc Hk Hnone.
  destruct (class_routes_elems m module_name cls_name c k Hc w Hk)
    as (rs & Heq & _ & Hel).
  { intros mn Hmn. destruct (Hnone mn Hmn) as (a & -> & _). by eexists. }
  rewrite (defines_any_false k HTTP_METHODS Hnone) in Heq, Hel.
  rewrite Heq. f_equal. f_equal. apply NoDup_nil_eq. intros x Hx.
  apply Hel in Hx as [(mn & a & Hmn & Ha & Himpl & _)|[? _]]; [|done].
  destruct (Hnone mn Hmn) as (a' & Ha' & Himpl'). congruence.
Qed.

Lemma no_defined_method_no_routes_witness :
  class_routes (so := insertion_order)
    (mkModule {["Inherits" := 0]} [("Inherits", true)]) "api.inherits" "Inherits"
    (mkWorld ∅ [mkClass "Inherits" Sample.base_attrs ["foo"] (PatList ["/bar"])
                        false true] [])
  = (Ok [], mkWorld ∅ [mkClass "Inherits" Sample.base_attrs ["foo"]
                               (PatList ["/bar"]) false true] []).
Proof.
  apply (no_defined_method_no_routes
           (mkModule {["Inherits" := 0]} [("Inherits", true)]) "api.inherits"
           "Inherits" 0
           (mkClass "Inherits" Sample.base_attrs ["foo"] (PatList ["/bar"])
                    false true));
    try reflexivity.
  intros mn Hmn. each_method Hmn; eexists; split; vm_compute; reflexivity.
Defined.

(** ** A missing attribute *)

Lemma methods_raise (m : Module) (module_name cls_name : string)
    (c : cls_ref) (k : Class) ms w :
  mod_attrs m !! cls_name = Some c ->
  classes w !! c = Some k ->
  (exists mn, mn ∈ ms /\ cls_attrs k !! mn = None) ->
  exists mn w',
    for_each (method_body m module_name cls_name) ms w
    = (Raise (AttributeError cls_name mn), w') /\
    mn ∈ ms /\ cls_attrs k !! mn = None.
Proof.
  intros Hc. revert w. induction ms as [|mn ms IH]; intros w Hk (mn0 & Hin & Hnone).
  - by apply elem_of_nil in Hin.
  - simpl. destruct (cls_attrs k !! mn) as [a|] eqn:Ha.
    + assert (Hmn0 : mn0 ∈ ms).
      { apply elem_of_cons in Hin as [->|?]; [congruence|done]. }
      assert (exists r w1, method_body m module_name cls_name mn w = (Ok r, w1)
                           /\ classes w1 = classes w) as (r & w1 & Hr & Hw1).
      { unfold method_body.
        rewrite (bind_Ok _ _ _ _ _ (has_method_Ok m cls_name c k Hc w mn a Hk Ha)).
        destruct (in_vars a && is_method a).
        - rewrite (method_routes_Ok m module_name cls_name c k Hc w mn a Hk Ha).
          eexists _, _. split; [done|]. apply consume_classes.
        - by eexists _, _. }
      destruct (IH w1 ltac:(by rewrite Hw1) (ex_intro _ mn0 (conj Hmn0 Hnone)))
        as (mn' & w' & Heq & Hin' & Hnone').
      exists mn', w'. rewrite (bind_Ok _ _ _ _ _ Hr), (bind_Raise _ _ _ _ _ Heq).
      split; [done|]. split; [by right|done].
    + exists mn, w. split; [|split; [left|done]].
      apply bind_Raise. unfold method_body. apply bind_Raise.
      unfold has_method. apply bind_Raise.
      by apply (getattr_method_Raise m cls_name c k Hc).
Qed.

Lemma method_body_Raise m module_name cls_name c k w mn :
  mod_attrs m !! cls_name = Some c -> classes w !! c = Some k ->
  cls_attrs k !! mn = None ->
  method_body m module_name cls_name mn w
  = (Raise (AttributeError cls_name mn), w).
Proof.
  intros Hc Hk Ha. unfold method_body. apply bind_Raise.
  unfold has_method. apply bind_Raise.
  by apply (getattr_method_Raise m cls_name c k Hc).
Qed.

(** A loop whose bodies return up to one that raises ends there. *)
Lemma runs_then_raise {A B} (f : A -> M B) pre x post w ys w1 e w2 :
  runs f pre w ys w1 -> f x w1 = (Raise e, w2) ->
  for_each f (pre ++ x :: post) w = (Raise e, w2).
Proof.
  intros Hruns Hx. induction Hruns as [w|x0 l w y w1 ys w3 Hy _ IH]; simpl.
  - by apply bind_Raise.
  - rewrite (bind_Ok _ _ _ _ _ Hy). apply bind_Raise. by apply IH.
Qed.

Lemma first_unresolved (k : Class) (ms : list string) (mn0 : string) :
  mn0 ∈ ms -> cls_attrs k !! mn0 = None ->
  exists pre mn post,
    ms = pre ++ mn :: post /\
    (forall x, x ∈ pre -> is_Some (cls_attrs k !! x)) /\
    cls_attrs k !! mn = None.
Proof.
  induction ms as [|x ms IH]; intros Hin Hnone; [by apply elem_of_nil in Hin|].
  destruct (cls_attrs k !! x) as [a|] eqn:Hx.
  - apply elem_of_cons in Hin as [->|Hin]; [congruence|].
    destruct (IH Hin Hnone) as (pre & mn & post & -> & Hpre & Hmn).
    exists (x :: pre), mn, post. split; [done|]. split; [|done].
    intros y [->|Hy]%elem_of_cons; [by rewrite Hx|by apply Hpre].
  - exists [], x, ms. split; [done|]. split; [|done].
    by intros y ?%elem_of_nil.
Qed.

(** A class that does not resolve some HTTP method name, inherited ones
    included, makes [class_routes] raise [AttributeError] for the first
    such name in the order of [HTTP_METHODS]: [HTTP_METHODS] splits into
    names that all resolve, the name that the error reports, which does
    not resolve, and the names that are never looked up.  No route of the
    class is returned, and the bodies of the names before have run: a
    [map] object in [_tj_pattern] is emptied exactly when the class
    defines one of them. *)
Theorem unresolved_method_raises `{so : SetOrder}
    (m : Module) (module_name cls_name : string) (c : cls_ref) (k : Class)
    (w : World) (mn0 : string) :
  mod_attrs m !! cls_name = Some c ->
  classes w !! c = Some k ->
  mn0 ∈ HTTP_METHODS -> cls_attrs k !! mn0 = None ->
  exists pre mn post,
    HTTP_METHODS = pre ++ mn :: post /\
    (forall x, x ∈ pre -> is_Some (cls_attrs k !! x)) /\
    cls_attrs k !! mn = None /\
    class_routes m module_name cls_name w
    = (Raise (AttributeError cls_name mn),
       if defines_any k pre then consume (_tj_pattern k) w else w).
Proof.
  intros Hc Hk Hin Hnone.
  destruct (first_unresolved k HTTP_METHODS mn0 Hin Hnone)
    as (pre & mn & post & Hsplit & Hpre & Hmn).
  exists pre, mn, post. split; [done|]. split; [done|]. split; [done|].
  destruct (methods_run_elems m module_name cls_name c k Hc pre w Hk Hpre)
    as (rss & Hruns & _).
  unfold class_routes. apply bind_Raise. rewrite Hsplit.
  apply (runs_then_raise _ _ _ _ _ _ _ _ _ Hruns).
  apply (method_body_Raise m module_name cls_name c k); [done| |done].
  destruct (defines_any k pre); [by rewrite consume_classes|done].
Qed.

Lemma unresolved_method_raises_witness :
  class_routes (so := insertion_order) Sample.partial "api.partial" "Partial"
    Sample.partial_world
  = (Raise (AttributeError "Partial" "post"),
     mkWorld (sys_modules Sample.partial_world) [Sample.Partial] [[]]).
Proof.
  destruct (unresolved_method_raises (so := insertion_order) Sample.partial
              "api.partial" "Partial" 0 Sample.Partial Sample.partial_world
              "options" eq_refl eq_refl)
    as (pre & mn & post & Hsplit & Hpre & Hmn & Heq).
  - unfold HTTP_METHODS. repeat constructor.
  - reflexivity.
  - rewrite Heq. unfold HTTP_METHODS in Hsplit.
    destruct pre as [|p1 [|p2 pre]]; simpl in Hsplit.
    + injection Hsplit as <- _. discriminate Hmn.
    + injection Hsplit as <- <- _. reflexivity.
    + injection Hsplit as _ <- _.
      destruct (Hpre "post") as [a Ha]; [right; left|discriminate Ha].
Defined.

(** ** Exclusions and custom routes *)

Lemma for_each_class_name cr names w :
  Forall2 (fun rc nm => exists k, classes w !! rc.2 = Some k /\ cls__name__ k = nm)
          cr names ->
  for_each (fun rc : string * cls_ref => class_name rc.2) cr w = (Ok names, w).
Proof.
  induction 1 as [|rc nm cr names (k & Hk & <-) _ IH]; [done|]. simpl.
  assert (class_name rc.2 w = (Ok (cls__name__ k), w)) as H
    by (unfold class_name; by rewrite Hk).
  by rewrite (bind_Ok _ _ _ _ _ H), (bind_Ok _ _ _ _ _ IH).
Qed.

Lemma for_each_class_name_inv cr names w w' :
  for_each (fun rc : string * cls_ref => class_name rc.2) cr w = (Ok names, w') ->
  w' = w /\
  Forall2 (fun rc nm => exists k, classes w !! rc.2 = Some k /\ cls__name__ k = nm)
          cr names.
Proof.
  revert names. induction cr as [|rc cr IH]; simpl; intros names H.
  - injection H as <- <-. by split.
  - apply bind_Ok_inv in H as (nm & w1 & Hnm & H).
    apply bind_Ok_inv in H as (nms & w2 & Hnms & H).
    injection H as <- <-. unfold class_name in Hnm.
    destruct (classes w !! rc.2) as [k|] eqn:Hk; [|discriminate].
    injection Hnm as <- <-. destruct (IH _ Hnms) as [-> Hall].
    split; [done|]. constructor; [by exists k|done].
Qed.

Lemma concat_map_nil {A B} (l : list A) : concat (map (fun _ => @nil B) l) = [].
Proof. induction l; simpl; done. Qed.

(** When every handler class of the module is named in [exclusions] or
    has the [__name__] of a class object in [custom_routes], no class is
    looked at: the module gives the custom routes, as they were passed,
    and nothing else. *)
Theorem suppressed_handlers_are_skipped `{so : SetOrder}
    (module_name : string) (m : Module) (w : World)
    (custom_routes : list (string * cls_ref)) (exclusions names : list string) :
  sys_modules w !! module_name = Some m ->
  Forall2 (fun rc nm => exists k, classes w !! rc.2 = Some k /\ cls__name__ k = nm)
          custom_routes names ->
  (forall item, item ∈ mod_rhs m -> item.2 = true -> item.1 ∈ names ++ exclusions) ->
  get_module_routes module_name (Some custom_routes) (Some exclusions) w
  = (Ok (map (fun rc => Pair rc.1 rc.2) custom_routes), w).
Proof.
  intros Hm Hnames Hall. unfold get_module_routes. simpl.
  rewrite (bind_Ok _ _ _ _ _ (import_module_Ok _ _ _ Hm)).
  rewrite (bind_Ok _ _ _ _ _ (for_each_class_name _ _ _ Hnames)).
  erewrite bind_Ok; cycle 1.
  { apply (for_each_pure _ (fun _ => [])). intros [cls_name b] Hitem. simpl.
    destruct b; [|done]. simpl.
    by rewrite (bool_decide_eq_true_2 _ (Hall _ Hitem eq_refl)). }
  by rewrite concat_map_nil.
Qed.

Lemma suppressed_handlers_are_skipped_witness :
  get_module_routes (so := insertion_order) "api.helloworld"
    (Some [("/hello", 0)]) (Some []) Sample.hello_world
  = (Ok [Pair "/hello" 0], Sample.hello_world).
Proof.
  apply (suppressed_handlers_are_skipped "api.helloworld" Sample.helloworld
           Sample.hello_world [("/hello", 0)] [] ["HelloWorldHandler"]).
  - reflexivity.
  - constructor; [|constructor]. by exists Sample.HelloWorldHandler.
  - intros item Hitem _. apply list_elem_of_singleton in Hitem as ->. left.
Defined.

Lemma runs_elem {A B} (f : A -> M B) (I : World -> Prop) l w ys w' y :
  runs f l w ys w' ->
  (forall x w y w', f x w = (Ok y, w') -> I w -> I w') ->
  I w -> y ∈ ys ->
  exists x wi wi', x ∈ l /\ I wi /\ f x wi = (Ok y, wi').
Proof.
  intros Hruns Hkeep. induction Hruns as [w|x l w y0 w1 ys w2 Hy _ IH]; intros HI Hin.
  - by apply elem_of_nil in Hin.
  - apply elem_of_cons in Hin as [->|Hin].
    + exists x, w, w1. split; [left|done].
    + destruct (IH (Hkeep _ _ _ _ Hy HI) Hin) as (x' & wi & wi' & ? & ? & ?).
      exists x', wi, wi'. split; [by right|done].
Qed.

Lemma shrinks_refl w : shrinks w w.
Proof. split; [apply same_code_refl|done]. Qed.

Lemma shrinks_trans w1 w2 w3 : shrinks w1 w2 -> shrinks w2 w3 -> shrinks w1 w3.
Proof.
  intros [Hc1 Hi1] [Hc2 Hi2]. split; [by eapply same_code_trans|].
  intros it x Hx. by apply Hi1, Hi2.
Qed.

Lemma consume_shrinks p w : shrinks w (consume p w).
Proof.
  split; [split; [apply consume_sys_modules|apply consume_classes]|].
  intros it x. destruct p as [l|it0]; [done|]. simpl.
  destruct (decide (it = it0)) as [->|Hne].
  - destruct (decide (it0 < length (iters w))) as [Hlt|Hge].
    + rewrite list_lookup_insert_eq by done. simpl. by intros ?%elem_of_nil.
    + by rewrite list_insert_ge by lia.
  - by rewrite list_lookup_insert_ne by done.
Qed.

Lemma read_shrinks p w wi x :
  shrinks w wi -> x ∈ read_patterns p wi -> x ∈ read_patterns p w.
Proof.
  intros [_ Hit]. destruct p as [l|it]; [done|]. simpl.
  intros (u & -> & Hu)%list_elem_of_fmap.
  apply (list_elem_of_fmap_2 _sanitize_pattern). by apply Hit.
Qed.

(** A name whose routes [class_routes] returns is bound by the module to
    a class object that resolves every HTTP method name. *)
Lemma class_routes_Ok_inv `{so : SetOrder} m module_name cls_name w rs w' :
  class_routes m module_name cls_name w = (Ok rs, w') ->
  exists c k,
    mod_attrs m !! cls_name = Some c /\ classes w !! c = Some k /\
    forall mn, mn ∈ HTTP_METHODS -> is_Some (cls_attrs k !! mn).
Proof.
  intros H.
  assert (Hget : forall e, getattr_class m cls_name w = (Raise e, w) -> False).
  { intros e He.
    assert (Hb : method_body m module_name cls_name "get" w = (Raise e, w)).
    { unfold method_body. apply bind_Raise. unfold has_method. apply bind_Raise.
      unfold getattr_method. by apply bind_Raise. }
    assert (Hr : class_routes m module_name cls_name w = (Raise e, w)).
    { unfold class_routes. apply bind_Raise.
      apply (runs_then_raise _ [] "get" _ w [] w); [constructor|exact Hb]. }
    congruence. }
  destruct (mod_attrs m !! cls_name) as [c|] eqn:Hc; cycle 1.
  { exfalso. eapply Hget. unfold getattr_class. by rewrite Hc. }
  destruct (classes w !! c) as [k|] eqn:Hk; cycle 1.
  { exfalso. eapply Hget. unfold getattr_class. by rewrite Hc, Hk. }
  exists c, k. split; [done|]. split; [done|]. intros mn Hmn.
  destruct (cls_attrs k !! mn) as [a|] eqn:Ha; [done|]. exfalso.
  destruct (methods_raise m module_name cls_name c k HTTP_METHODS w Hc Hk
              (ex_intro _ mn (conj Hmn Ha))) as (mn' & w1 & Heq & _).
  unfold class_routes in H. by rewrite (bind_Raise _ _ _ _ _ Heq) in H.
Qed.

Lemma class_routes_shrinks `{so : SetOrder} m module_name cls_name w rs w' :
  class_routes m module_name cls_name w = (Ok rs, w') -> shrinks w w'.
Proof.
  intros H.
  destruct (class_routes_Ok_inv _ _ _ _ _ _ H) as (c & k & Hc & Hk & Hres).
  destruct (class_routes_elems m module_name cls_name c k Hc w Hk Hres)
    as (rs' & Heq & _).
  assert (w' = if defines_any k HTTP_METHODS
               then consume (_tj_pattern k) w else w) as -> by congruence.
  destruct (defines_any k HTTP_METHODS); [apply consume_shrinks|apply shrinks_refl].
Qed.

(** When [get_module_routes] returns, the custom routes are the end of
    the list, in the order they were passed, and every entry before them
    is a route of a class that the module lists as a handler and that is
    named neither in [exclusions] nor by a class object in
    [custom_routes]: the class resolves every HTTP method name, and the
    entry is an end-pattern route or an auto url of an HTTP method that
    the class defines, or a custom pattern that its [_tj_pattern] holds
    in the state in which [get_module_routes] is called. *)
Theorem routes_come_from_unsuppressed_classes `{so : SetOrder}
    (module_name : string)
    (custom_routes : option (list (string * cls_ref)))
    (exclusions : option (list string)) (w w' : World) (rs : list Entry) :
  get_module_routes module_name custom_routes exclusions w = (Ok rs, w') ->
  exists m names auto_routes,
    sys_modules w !! module_name = Some m /\
    Forall2 (fun rc nm => exists k, classes w !! rc.2 = Some k /\ cls__name__ k = nm)
            (default [] custom_routes) names /\
    rs = auto_routes ++ map (fun rc => Pair rc.1 rc.2) (default [] custom_routes) /\
    forall x, x ∈ auto_routes ->
      exists cls_name c k,
        (cls_name, true) ∈ mod_rhs m /\
        (cls_name ∉ names ++ default [] exclusions) /\
        mod_attrs m !! cls_name = Some c /\
        classes w !! c = Some k /\
        (forall mn, mn ∈ HTTP_METHODS -> is_Some (cls_attrs k !! mn)) /\
        (fixed_entry module_name cls_name c k HTTP_METHODS x \/
         (defines_any k HTTP_METHODS = true /\
          x ∈ map (fun u => Pair u c) (read_patterns (_tj_pattern k) w))).
Proof.
  intros H. unfold get_module_routes in H.
  apply bind_Ok_inv in H as (m & w1 & Hm & H).
  unfold import_module in Hm.
  destruct (sys_modules w !! module_name) as [m'|] eqn:Hsys; [|discriminate].
  injection Hm as -> <-.
  apply bind_Ok_inv in H as (names & w2 & Hnames & H).
  apply for_each_class_name_inv in Hnames as [-> Hnames].
  apply bind_Ok_inv in H as (rss & w3 & Hrss & H).
  injection H as <- <-.
  exists m, names, (concat rss). split; [done|]. split; [done|]. split; [done|].
  intros x Hx. apply elem_of_concat in Hx as (ri & Hri & Hx).
  apply for_each_runs in Hrss.
  destruct (runs_elem _ (shrinks w) _ _ _ _ ri Hrss)
    as ([cls_name b] & wi & wi' & Hitem & Hwi & Hrun);
    [|apply shrinks_refl|done|].
  - intros [cn b] v y v' Hv Hsh. eapply shrinks_trans; [exact Hsh|].
    simpl in Hv. destruct (_ && _).
    + by eapply class_routes_shrinks.
    + injection Hv as _ <-. apply shrinks_refl.
  - simpl in Hrun.
    destruct b; simpl in Hrun; cycle 1.
    { injection Hrun as <- _. by apply elem_of_nil in Hx. }
    destruct (bool_decide _) eqn:Hdec; simpl in Hrun.
    { injection Hrun as <- _. by apply elem_of_nil in Hx. }
    apply bool_decide_eq_false in Hdec.
    destruct (class_routes_Ok_inv _ _ _ _ _ _ Hrun) as (c & k & Hc & Hk & Hres).
    destruct (class_routes_elems m module_name cls_name c k Hc wi Hk Hres)
      as (ri' & Heq & _ & Hel).
    assert (ri' = ri) as -> by congruence.
    exists cls_name, c, k. split; [done|]. split; [done|]. split; [done|].
    split; [destruct Hwi as [[_ Hcl] _]; by rewrite <- Hcl|]. split; [done|].
    destruct (proj1 (Hel x) Hx) as [Hfix|[Hany Hcustom]]; [by left|right].
    split; [done|].
    destruct (proj1 (list_elem_of_fmap _ _ _) Hcustom) as (u & Hxu & Hu). subst x.
    apply (list_elem_of_fmap_2 (fun u => Pair u c)). by eapply read_shrinks.
Qed.

Lemma routes_come_from_unsuppressed_classes_witness :
  get_module_routes (so := insertion_order) "api.helloworld" None None
    Sample.routed_world
  = (Ok [Pair "/foo/?$" 0], consume (PatMap 0) Sample.routed_world) /\
  exists cls_name c k,
    (cls_name, true) ∈ mod_rhs Sample.helloworld /\
    mod_attrs Sample.helloworld !! cls_name = Some c /\
    classes Sample.routed_world !! c = Some k /\
    (fixed_entry "api.helloworld" cls_name c k HTTP_METHODS (Pair "/foo/?$" 0) \/
     (defines_any k HTTP_METHODS = true /\
      Pair "/foo/?$" 0
      ∈ map (fun u => Pair u c)
            (read_patterns (_tj_pattern k) Sample.routed_world))).
Proof.
  assert (Hrun : get_module_routes (so := insertion_order) "api.helloworld"
                   None None Sample.routed_world
                 = (Ok [Pair "/foo/?$" 0], consume (PatMap 0) Sample.routed_world))
    by (vm_compute; reflexivity).
  split; [exact Hrun|].
  destruct (routes_come_from_unsuppressed_classes _ _ _ _ _ _ Hrun)
    as (m & names & auto_routes & Hm & _ & Heq & Hall).
  assert (m = Sample.helloworld) as ->
    by (apply (inj Some); rewrite <- Hm; reflexivity).
  simpl in Heq. rewrite app_nil_r in Heq. subst auto_routes.
  destruct (Hall (Pair "/foo/?$" 0))
    as (cls_name & c & k & H1 & _ & H2 & H3 & _ & H4); [left|].
  by exists cls_name, c, k.
Defined.

(** ** What the decorators write *)

Lemma route_Ok_world pattern end_pattern no_auto_route handler w es ps :
  _transform_attr end_pattern = Ok es ->
  _transform_attr pattern = Ok ps ->
  route pattern end_pattern no_auto_route handler w
  = (Ok handler,
     mkWorld (sys_modules w)
       (alter (with_no_auto_route no_auto_route) handler
          (alter (with_pattern (PatMap (length (iters w)))) handler
             (alter (with_end_pattern es) handler (classes w))))
       (iters w ++ [ps])).
Proof.
  intros Hes Hps.
  unfold route, _route, bind, lift, setattr, new_map, ret. by rewrite Hes, Hps.
Qed.

Lemma baseroute_world handler w :
  baseroute handler w
  = (Ok handler,
     mkWorld (sys_modules w)
       (alter (with_no_auto_route true) handler
          (alter (with_route_base true) handler (classes w)))
       (iters w)).
Proof. reflexivity. Qed.

Lemma lookup_alter_class (f : Class -> Class) (h : cls_ref) (l : list Class) k :
  l !! h = Some k -> alter f h l !! h = Some (f k).
Proof.
  intros Hk. rewrite list_lookup_alter, decide_True by done.
  exact (f_equal (fmap f) Hk).
Qed.

Lemma lookup_alter_other (f : Class -> Class) (h c : cls_ref) (l : list Class) :
  c ≠ h -> alter f h l !! c = l !! c.
Proof. intros Hne. by rewrite list_lookup_alter, decide_False by done. Qed.

(** Applying [route] with supported shapes returns the handler and
    leaves it with the end patterns as normalized, with a new [map]
    object whose reading gives the patterns sanitized, in their order,
    and with the flag as given; its name, its methods and its
    [_tj_route_base] stay, and so do every other class, every other
    [map] object and the modules. *)
Theorem route_writes_the_metadata (pattern end_pattern : PyVal)
    (no_auto_route : bool) (handler : cls_ref) (w : World)
    (es ps : list string) (k : Class) :
  _transform_attr end_pattern = Ok es ->
  _transform_attr pattern = Ok ps ->
  classes w !! handler = Some k ->
  exists w',
    route pattern end_pattern no_auto_route handler w = (Ok handler, w') /\
    classes w' !! handler
    = Some (mkClass (cls__name__ k) (cls_attrs k) es (PatMap (length (iters w)))
                    no_auto_route (_tj_route_base k)) /\
    read_patterns (PatMap (length (iters w))) w' = map _sanitize_pattern ps /\
    (forall c, c ≠ handler -> classes w' !! c = classes w !! c) /\
    (forall it, it < length (iters w) -> iters w' !! it = iters w !! it) /\
    sys_modules w' = sys_modules w.
Proof.
  intros Hes Hps Hk. eexists. split; [by apply route_Ok_world|]. simpl.
  split; [|split; [|split; [|split]]].
  - by rewrite (lookup_alter_class _ _ _ _
                  (lookup_alter_class _ _ _ _ (lookup_alter_class _ _ _ _ Hk))).
  - by rewrite lookup_app_r, Nat.sub_diag by lia.
  - intros c Hne. by rewrite !lookup_alter_other.
  - intros it Hit. by rewrite lookup_app_l.
  - done.
Qed.

Lemma route_writes_the_metadata_witness :
  exists w',
    route (VStr "/foo$") (VTuple ["a"; "b"]) false 0 Sample.hello_world
    = (Ok 0, w') /\
    classes w' !! 0
    = Some (mkClass "HelloWorldHandler" (cls_attrs Sample.HelloWorldHandler)
                    ["a"; "b"] (PatMap 0) false false) /\
    read_patterns (PatMap 0) w' = ["/foo/?$"].
Proof.
  destruct (route_writes_the_metadata (VStr "/foo$") (VTuple ["a"; "b"]) false 0
              Sample.hello_world ["a"; "b"] ["/foo$"] Sample.HelloWorldHandler
              eq_refl eq_refl eq_refl)
    as (w' & Heq & Hcls & Hread & _).
  exists w'. split; [exact Heq|]. split; [exact Hcls|exact Hread].
Defined.

(** A decoration that raises has created no [map] object and has left
    the modules and every class but the handler as they were; when it is
    [end_pattern] that has no supported shape, nothing at all is
    written. *)
Theorem failed_route_writes_little (pattern end_pattern : PyVal)
    (no_auto_route : bool) (handler : cls_ref) (w w' : World) (e : Exn) :
  route pattern end_pattern no_auto_route handler w = (Raise e, w') ->
  iters w' = iters w /\
  sys_modules w' = sys_modules w /\
  (forall c, c ≠ handler -> classes w' !! c = classes w !! c) /\
  (supported end_pattern = false -> w' = w).
Proof.
  unfold route, _route, bind, lift, setattr, new_map, ret.
  destruct (_transform_attr end_pattern) as [es|e1] eqn:Hes; simpl.
  - destruct (_transform_attr pattern) as [ps|e2] eqn:Hps; simpl; [done|].
    intros [= _ <-]. simpl. split; [done|]. split; [done|]. split.
    + intros c Hne. by rewrite lookup_alter_other.
    + intros Hsup. destruct end_pattern; simpl in *; congruence.
  - intros [= _ <-]. by destruct w.
Qed.

Lemma failed_route_writes_little_witness :
  let w' := (route (VInt 3) (VStr "foo") true 0 Sample.hello_world).2 in
  iters w' = iters Sample.hello_world /\
  sys_modules w' = sys_modules Sample.hello_world /\
  (forall c, c ≠ 0 -> classes w' !! c = classes Sample.hello_world !! c) /\
  (supported (VStr "foo") = false -> w' = Sample.hello_world).
Proof.
  apply (failed_route_writes_little (VInt 3) (VStr "foo") true 0
           Sample.hello_world _ TypeError).
  reflexivity.
Defined.

(** The two decorators do not commute: [baseroute] applied after
    [route] turns the auto-route off whatever flag [route] was given,
    and [route] applied after [baseroute] sets the flag it was given;
    [_tj_route_base] is on in both orders. *)
Theorem decorators_do_not_commute (pattern end_pattern : PyVal)
    (no_auto_route : bool) (handler : cls_ref) (w : World)
    (es ps : list string) (k : Class) :
  _transform_attr end_pattern = Ok es ->
  _transform_attr pattern = Ok ps ->
  classes w !! handler = Some k ->
  (exists k1,
      classes (bind (route pattern end_pattern no_auto_route handler) baseroute w).2
        !! handler = Some k1 /\
      _tj_no_auto_route k1 = true /\ _tj_route_base k1 = true /\
      _tj_end_pattern k1 = es) /\
  (exists k2,
      classes (bind (baseroute handler) (route pattern end_pattern no_auto_route) w).2
        !! handler = Some k2 /\
      _tj_no_auto_route k2 = no_auto_route /\ _tj_route_base k2 = true /\
      _tj_end_pattern k2 = es).
Proof.
  intros Hes Hps Hk. split.
  - rewrite (bind_Ok _ _ _ _ _ (route_Ok_world _ _ no_auto_route handler w es ps Hes Hps)).
    rewrite baseroute_world. simpl. eexists. split.
    + apply lookup_alter_class, lookup_alter_class, lookup_alter_class,
        lookup_alter_class, lookup_alter_class, Hk.
    + done.
  - rewrite (bind_Ok _ _ _ _ _ (baseroute_world handler w)).
    rewrite (route_Ok_world _ _ no_auto_route handler _ es ps Hes Hps).
    simpl. eexists. split.
    + apply lookup_alter_class, lookup_alter_class, lookup_alter_class,
        lookup_alter_class, lookup_alter_class, Hk.
    + done.
Qed.

Lemma decorators_do_not_commute_witness :
  (exists k1,
      classes (bind (route VNone VNone false 0) baseroute Sample.hello_world).2
        !! 0 = Some k1 /\
      _tj_no_auto_route k1 = true /\ _tj_route_base k1 = true /\
      _tj_end_pattern k1 = []) /\
  (exists k2,
      classes (bind (baseroute 0) (route VNone VNone false) Sample.hello_world).2
        !! 0 = Some k2 /\
      _tj_no_auto_route k2 = false /\ _tj_route_base k2 = true /\
      _tj_end_pattern k2 = []).
Proof.
  apply (decorators_do_not_commute VNone VNone false 0 Sample.hello_world [] []
           Sample.HelloWorldHandler); reflexivity.
Defined.

(** ** Decorated handlers, end to end *)

Section UniformClass.

Context `{so : SetOrder}.
Variables (m : Module) (module_name cls_name : string).
Variables (c : cls_ref) (k : Class) (args : list string).
Hypothesis Hc : mod_attrs m !! cls_name = Some c.
Hypothesis Hargs : forall mn, mn ∈ HTTP_METHODS -> exists a,
    cls_attrs k !! mn = Some a /\
    (in_vars a && is_method a = true ->
     filter (fun x => x ≠ "self") (argspec a) = args).
Hypothesis Hany : defines_any k HTTP_METHODS = true.

Lemma fixed_entry_uniform x :
  fixed_entry module_name cls_name c k HTTP_METHODS x <->
  x ∈ method_entries module_name cls_name c k args [].
Proof.
  split.
  - intros (mn & a & Hmn & Ha & Himpl & Hx).
    destruct (Hargs mn Hmn) as (a' & Ha' & Heq).
    rewrite Ha in Ha'. injection Ha' as <-. by rewrite <- (Heq Himpl).
  - intros Hx. unfold defines_any in Hany.
    apply existsb_exists in Hany as (mn & Hmn & Himpl).
    apply list_elem_of_In in Hmn.
    destruct (Hargs mn Hmn) as (a & Ha & Heq). rewrite Ha in Himpl.
    exists mn, a. by rewrite (Heq Himpl).
Qed.

(** A class whose defined HTTP methods all take [args]. *)
Lemma class_routes_uniform w :
  classes w !! c = Some k ->
  exists rs,
    class_routes m module_name cls_name w
    = (Ok rs, consume (_tj_pattern k) w) /\
    NoDup rs /\
    forall x,
      x ∈ rs <->
      x ∈ method_entries module_name cls_name c k args
            (read_patterns (_tj_pattern k) w).
Proof.
  intros Hk.
  destruct (class_routes_elems m module_name cls_name c k Hc w Hk)
    as (rs & Heq & Hnd & Hel).
  { intros mn Hmn. destruct (Hargs mn Hmn) as (a & -> & _). by eexists. }
  rewrite Hany in Heq. exists rs. split; [done|]. split; [done|].
  intros x. rewrite Hel, method_entries_split, fixed_entry_uniform. tauto.
Qed.

End UniformClass.

Lemma self_url_is_not_module_url module_name cls_name args :
  format_route module_name cls_name args (Auto auto_self)
  ≠ format_route module_name cls_name args (Auto auto_module).
Proof.
  unfold format_route. intros H. apply String.app_inj in H.
  apply (f_equal String.length) in H. revert H.
  unfold get_handler_name. destruct (PyStr.endswith _ _);
    rewrite !append_nil_l, !length_append; simpl; lia.
Qed.

(** A handler under [baseroute] alone, whose defined HTTP methods all
    take [args]: it gets the one url made of the module path and the
    argument route, with no name segment, and no self-named url. *)
Theorem baseroute_routes_the_module_path `{so : SetOrder}
    (m : Module) (module_name cls_name : string) (c : cls_ref) (k : Class)
    (args : list string) (w : World) :
  mod_attrs m !! cls_name = Some c ->
  classes w !! c = Some k ->
  (forall mn, mn ∈ HTTP_METHODS -> exists a,
      cls_attrs k !! mn = Some a /\
      (in_vars a && is_method a = true ->
       filter (fun x => x ≠ "self") (argspec a) = args)) ->
  defines_any k HTTP_METHODS = true ->
  _tj_end_pattern k = [] -> _tj_pattern k = PatList [] ->
  let w1 := (baseroute c w).2 in
  class_routes m module_name cls_name w1
  = (Ok [Url (get_module_path module_name +:+ get_arg_route args)], w1).
Proof.
  intros Hc Hk Hargs Hany Hend Hpat w1.
  set (k1 := with_no_auto_route true (with_route_base true k)).
  assert (Hk1 : classes w1 !! c = Some k1).
  { unfold w1. rewrite baseroute_world. simpl.
    by apply lookup_alter_class, lookup_alter_class. }
  destruct (class_routes_uniform m module_name cls_name c k1 args Hc Hargs Hany w1 Hk1)
    as (rs & Heq & Hnd & Hel).
  simpl in Heq, Hel. rewrite Hpat in Heq, Hel. simpl in Heq, Hel.
  rewrite Heq. f_equal. f_equal. apply NoDup_singleton_eq; [done|].
  intros x. rewrite Hel. unfold method_entries, auto_urls. simpl.
  rewrite Hend. simpl. apply list_elem_of_singleton.
Qed.

Lemma baseroute_routes_the_module_path_witness :
  class_routes (so := insertion_order) Sample.helloworld "api.helloworld"
    "HelloWorldHandler" (baseroute 0 Sample.hello_world).2
  = (Ok [Url "/helloworld/?"], (baseroute 0 Sample.hello_world).2).
Proof.
  apply (baseroute_routes_the_module_path Sample.helloworld "api.helloworld"
           "HelloWorldHandler" 0 Sample.HelloWorldHandler []);
    try reflexivity.
  intros mn Hmn.
  each_method Hmn; eexists; (split; [vm_compute; reflexivity|intros _; reflexivity]).
Defined.

(** A handler with [_tj_route_base] on and the auto-route on, whose
    defined HTTP methods all take [args]: it gets both the self-named url
    and the url of the module path, which differ, and nothing else. *)
Theorem base_and_auto_route_give_two_urls `{so : SetOrder}
    (m : Module) (module_name cls_name : string) (c : cls_ref) (k : Class)
    (args : list string) (w : World) :
  mod_attrs m !! cls_name = Some c ->
  classes w !! c = Some k ->
  (forall mn, mn ∈ HTTP_METHODS -> exists a,
      cls_attrs k !! mn = Some a /\
      (in_vars a && is_method a = true ->
       filter (fun x => x ≠ "self") (argspec a) = args)) ->
  defines_any k HTTP_METHODS = true ->
  _tj_end_pattern k = [] -> _tj_pattern k = PatList [] ->
  _tj_no_auto_route k = false -> _tj_route_base k = true ->
  exists rs,
    class_routes m module_name cls_name w = (Ok rs, w) /\
    rs ≡ₚ [Url (format_route module_name cls_name args (Auto auto_self));
           Url (get_module_path module_name +:+ get_arg_route args)] /\
    length rs = 2.
Proof.
  intros Hc Hk Hargs Hany Hend Hpat Hauto Hbase.
  destruct (class_routes_uniform m module_name cls_name c k args Hc Hargs Hany w Hk)
    as (rs & Heq & Hnd & Hel).
  rewrite Hpat in Heq, Hel. simpl in Heq, Hel.
  exists rs. split; [done|].
  assert (Hperm : rs ≡ₚ [Url (format_route module_name cls_name args (Auto auto_self));
                         Url (get_module_path module_name +:+ get_arg_route args)]).
  { apply NoDup_Permutation; [done| |].
    - apply NoDup_cons. split; [|apply NoDup_singleton].
      intros H%list_elem_of_singleton.
      exact (self_url_is_not_module_url module_name cls_name args
               (f_equal entry_url H)).
    - intros x. rewrite Hel. unfold method_entries, auto_urls.
      rewrite Hend, Hauto, Hbase. simpl. done. }
  split; [done|]. by rewrite Hperm.
Qed.

Lemma base_and_auto_route_give_two_urls_witness :
  exists rs,
    class_routes (so := insertion_order) Sample.helloworld "api.helloworld"
      "HelloWorldHandler"
      (mkWorld ∅ [with_route_base true Sample.HelloWorldHandler] [])
    = (Ok rs, mkWorld ∅ [with_route_base true Sample.HelloWorldHandler] []) /\
    rs ≡ₚ [Url "/helloworld/helloworld/?"; Url "/helloworld/?"] /\
    length rs = 2.
Proof.
  apply (base_and_auto_route_give_two_urls Sample.helloworld "api.helloworld"
           "HelloWorldHandler" 0 (with_route_base true Sample.HelloWorldHandler) []);
    try reflexivity.
  intros mn Hmn.
  each_method Hmn; eexists; (split; [vm_compute; reflexivity|intros _; reflexivity]).
Defined.

(** A handler under [route], with supported shapes, whose defined HTTP
    methods all take [args]: the first synthesis after the decoration
    gives, without repetition, one route for each end pattern (the module
    path, the entry after a slash, the argument route), one for each
    pattern (sanitized, with nothing added), the self-named url when the
    flag is off, and the url of the module path when [_tj_route_base] was
    on; the tuples map to the handler.  After it the [map] object is
    empty. *)
Theorem route_then_synthesis `{so : SetOrder}
    (m : Module) (module_name cls_name : string) (c : cls_ref) (k : Class)
    (args : list string) (w : World)
    (pattern end_pattern : PyVal) (no_auto_route : bool) (es ps : list string) :
  mod_attrs m !! cls_name = Some c ->
  classes w !! c = Some k ->
  (forall mn, mn ∈ HTTP_METHODS -> exists a,
      cls_attrs k !! mn = Some a /\
      (in_vars a && is_method a = true ->
       filter (fun x => x ≠ "self") (argspec a) = args)) ->
  defines_any k HTTP_METHODS = true ->
  _transform_attr end_pattern = Ok es ->
  _transform_attr pattern = Ok ps ->
  let w1 := (route pattern end_pattern no_auto_route c w).2 in
  exists rs w2,
    class_routes m module_name cls_name w1 = (Ok rs, w2) /\
    NoDup rs /\
    (forall x,
        x ∈ rs <->
        (exists e, e ∈ es /\
           x = Pair (get_module_path module_name +:+ ("/" +:+ e)
                     +:+ get_arg_route args) c) \/
        (exists p, p ∈ ps /\ x = Pair (_sanitize_pattern p) c) \/
        (no_auto_route = false /\
         x = Url (format_route module_name cls_name args (Auto auto_self))) \/
        (_tj_route_base k = true /\
         x = Url (get_module_path module_name +:+ get_arg_route args))) /\
    read_patterns (PatMap (length (iters w))) w2 = [].
Proof.
  intros Hc Hk Hargs Hany Hes Hps w1.
  set (it := length (iters w)).
  set (k1 := with_no_auto_route no_auto_route
               (with_pattern (PatMap it) (with_end_pattern es k))).
  assert (Hw1 : w1 = mkWorld (sys_modules w)
                       (alter (with_no_auto_route no_auto_route) c
                          (alter (with_pattern (PatMap it)) c
                             (alter (with_end_pattern es) c (classes w))))
                       (iters w ++ [ps])).
  { unfold w1. by rewrite (route_Ok_world _ _ no_auto_route c w es ps Hes Hps). }
  assert (Hk1 : classes w1 !! c = Some k1).
  { rewrite Hw1. simpl.
    by apply lookup_alter_class, lookup_alter_class, lookup_alter_class. }
  assert (Hread : read_patterns (PatMap it) w1 = map _sanitize_pattern ps).
  { rewrite Hw1. simpl. unfold it. by rewrite lookup_app_r, Nat.sub_diag by lia. }
  destruct (class_routes_uniform m module_name cls_name c k1 args Hc Hargs Hany w1 Hk1)
    as (rs & Heq & Hnd & Hel).
  change (_tj_pattern k1) with (PatMap it) in Heq, Hel. rewrite Hread in Hel.
  exists rs, (consume (PatMap it) w1). split; [done|]. split; [done|]. split.
  - intros x. rewrite Hel. unfold method_entries, auto_urls.
    change (_tj_end_pattern k1) with es.
    change (_tj_no_auto_route k1) with no_auto_route.
    change (_tj_route_base k1) with (_tj_route_base k).
    rewrite !elem_of_app. split.
    + intros [Hx|[Hx|Hx]].
      * apply list_elem_of_fmap in Hx as (e & -> & He). left. by exists e.
      * apply list_elem_of_fmap in Hx as (u & -> & Hu).
        apply list_elem_of_fmap in Hu as (p & -> & Hp). right. left. by exists p.
      * apply list_elem_of_fmap in Hx as (u & -> & Hu).
        apply elem_of_app in Hu as [Hu|Hu].
        -- destruct no_auto_route; simpl in Hu; [by apply elem_of_nil in Hu|].
           apply list_elem_of_singleton in Hu as ->. right. right. by left.
        -- destruct (_tj_route_base k); simpl in Hu; [|by apply elem_of_nil in Hu].
           apply list_elem_of_singleton in Hu as ->. right. right. by right.
    + intros [(e & He & ->)|[(p & Hp & ->)|[[-> ->]|[Hb ->]]]].
      * left.
        by apply (list_elem_of_fmap_2
                    (fun e => Pair (format_route module_name cls_name args (Name e)) c)).
      * right. left.
        apply (list_elem_of_fmap_2 (fun u => Pair u c)).
        by apply (list_elem_of_fmap_2 _sanitize_pattern).
      * right. right. apply (list_elem_of_fmap_2 Url).
        apply elem_of_app. left. simpl. left.
      * right. right. apply (list_elem_of_fmap_2 Url).
        apply elem_of_app. right. rewrite Hb. left.
  - rewrite Hw1. simpl. unfold it.
    rewrite list_lookup_insert_eq by (rewrite length_app; simpl; lia). done.
Qed.

Lemma route_then_synthesis_witness :
  exists rs w2,
    class_routes (so := insertion_order) Sample.helloworld "api.helloworld"
      "HelloWorldHandler"
      (route (VStr "/foo") (VList ["a"; "b"]) true 0 Sample.hello_world).2
    = (Ok rs, w2) /\
    NoDup rs /\
    Pair "/helloworld/a/?" 0 ∈ rs /\ Pair "/foo/?$" 0 ∈ rs /\
    read_patterns (PatMap 0) w2 = [].
Proof.
  destruct (route_then_synthesis Sample.helloworld "api.helloworld"
              "HelloWorldHandler" 0 Sample.HelloWorldHandler [] Sample.hello_world
              (VStr "/foo") (VList ["a"; "b"]) true ["a"; "b"] ["/foo"]
              eq_refl eq_refl)
    as (rs & w2 & Heq & Hnd & Hel & Hread); try reflexivity.
  - intros mn Hmn.
    each_method Hmn; eexists; (split; [vm_compute; reflexivity|intros _; reflexivity]).
  - exists rs, w2. split; [exact Heq|]. split; [exact Hnd|]. split; [|split].
    + apply Hel. left. exists "a". split; [left|reflexivity].
    + apply Hel. right. left. exists "/foo". split; [left|reflexivity].
    + exact Hread.
Defined.

(** ** Sanitized patterns *)

Lemma rstrip_cons (c a : ascii) (s : string) :
  PyStr.rstrip c (String a s)
  = match PyStr.rstrip c s with
    | EmptyString => if Ascii.eqb a c then EmptyString else String a EmptyString
    | r => String a r
    end.
Proof. reflexivity. Qed.

Lemma rstrip_snoc_same (c : ascii) (s : string) :
  PyStr.rstrip c (s +:+ String c "") = PyStr.rstrip c s.
Proof.
  induction s as [|a s IH].
  - rewrite append_nil_l, rstrip_cons. simpl. by rewrite Ascii.eqb_refl.
  - by rewrite append_cons, !rstrip_cons, IH.
Qed.

Lemma rstrip_snoc_other (c d : ascii) (s : string) :
  d ≠ c -> PyStr.rstrip c (s +:+ String d "") = s +:+ String d "".
Proof.
  intros Hne. induction s as [|a s IH].
  - rewrite append_nil_l, rstrip_cons. simpl.
    by destruct (Ascii.eqb_spec d c).
  - rewrite append_cons, rstrip_cons, IH.
    destruct s; [by rewrite append_nil_l|by rewrite append_cons].
Qed.

Lemma endswith_inv (s e : string) :
  PyStr.endswith s e = true -> exists r, s = r +:+ e.
Proof.
  induction s as [|a s IH].
  - change (PyStr.endswith "" e) with (if String.eqb "" e then true else false).
    destruct (String.eqb_spec "" e) as [<-|]; [|done]. by exists "".
  - rewrite endswith_cons.
    destruct (String.eqb_spec (String a s) e) as [<-|_].
    + by exists "".
    + intros H. destruct (IH H) as [r ->]. exists (String a r).
      by rewrite append_cons.
Qed.

Lemma ensure_endswith_form (s e : string) :
  exists r, ensure_endswith s e = r +:+ e.
Proof.
  unfold ensure_endswith. destruct (PyStr.endswith s e) eqn:E.
  - by apply endswith_inv.
  - by exists s.
Qed.

Lemma sanitize_pattern_fixed (r : string) :
  _sanitize_pattern (r +:+ "/?$") = r +:+ "/?$".
Proof.
  unfold _sanitize_pattern.
  replace (r +:+ "/?$") with ((r +:+ "/?") +:+ String "$" "")
    by by rewrite append_assoc.
  rewrite rstrip_snoc_same.
  replace (r +:+ "/?") with ((r +:+ "/") +:+ String "?" "")
    by by rewrite append_assoc.
  rewrite rstrip_snoc_other by done.
  unfold ensure_endswith.
  replace ((r +:+ "/") +:+ String "?" "") with (r +:+ "/?")
    by by rewrite append_assoc.
  by rewrite endswith_append.
Qed.

(** [_sanitize_pattern] gives a pattern that ends with ["/?$"]; it
    leaves a pattern of that form as it is, so that sanitizing twice is
    sanitizing once; and it gives the same for a pattern with and without
    a trailing anchor. *)
Theorem sanitize_pattern_normalizes :
  (forall p, PyStr.endswith (_sanitize_pattern p) "/?$" = true)
  /\ (forall r, _sanitize_pattern (r +:+ "/?$") = r +:+ "/?$")
  /\ (forall p, _sanitize_pattern (_sanitize_pattern p) = _sanitize_pattern p)
  /\ (forall p, _sanitize_pattern (p +:+ "$") = _sanitize_pattern p).
Proof.
  assert (Hform : forall p, exists r, _sanitize_pattern p = r +:+ "/?$").
  { intros p. unfold _sanitize_pattern.
    destruct (ensure_endswith_form (PyStr.rstrip "$" p) "/?") as [r ->].
    exists r. by rewrite append_assoc. }
  split; [|split; [|split]].
  - intros p. destruct (Hform p) as [r ->]. apply endswith_append.
  - apply sanitize_pattern_fixed.
  - intros p. destruct (Hform p) as [r ->]. apply sanitize_pattern_fixed.
  - intros p. unfold _sanitize_pattern. by rewrite rstrip_snoc_same.
Qed.


(** ** The module path *)

Lemma rev_app_rev_app (a b c : string) :
  String.rev_app (String.rev_app a b) c = String.rev_app b (a +:+ c).
Proof.
  revert b c. induction a as [|x a IH]; intros b c; [done|].
  simpl String.rev_app at 2. rewrite IH. by rewrite append_cons.
Qed.

Lemma rev_rev_app (a : string) : String.rev (String.rev_app a "") = a.
Proof.
  unfold String.rev. rewrite rev_app_rev_app. simpl. apply append_empty_r.
Qed.

Lemma split_go_dotless (a cur : string) :
  dotless a = true ->
  PyStr.split_go "." cur a = [String.rev (String.rev_app a cur)]
  /\ forall b, PyStr.split_go "." cur (a +:+ String "." b)
               = String.rev (String.rev_app a cur) :: PyStr.split_go "." "" b.
Proof.
  revert cur. induction a as [|x a IH]; intros cur H.
  - split; [done|]. intros b. by rewrite append_nil_l.
  - simpl in H. apply andb_prop in H as [Hx Ha].
    apply negb_true_iff in Hx.
    destruct (IH (String x cur) Ha) as [IH1 IH2]. split.
    + simpl. by rewrite Hx.
    + intros b. rewrite append_cons. simpl. by rewrite Hx.
Qed.

(** [get_module_path] drops the first component of the dotted name and
    joins the others with slashes: a name of one component gives ["/"],
    and the root component has no part in the path. *)
Theorem module_path_drops_the_root (root : string) :
  dotless root = true ->
  get_module_path root = "/"
  /\ (forall rest,
         get_module_path (root +:+ "." +:+ rest)
         = "/" +:+ PyStr.join "/" (PyStr.split "." rest))
  /\ (forall rest, dotless rest = true ->
         get_module_path (root +:+ "." +:+ rest) = "/" +:+ rest)
  /\ (forall root' rest, dotless root' = true ->
         get_module_path (root' +:+ "." +:+ rest)
         = get_module_path (root +:+ "." +:+ rest)).
Proof.
  intros Hroot.
  assert (Hdrop : forall r rest, dotless r = true ->
            get_module_path (r +:+ "." +:+ rest)
            = "/" +:+ PyStr.join "/" (PyStr.split "." rest)).
  { intros r rest Hr. unfold get_module_path, PyStr.split.
    change (r +:+ "." +:+ rest) with (r +:+ String "." rest).
    by rewrite (proj2 (split_go_dotless r "" Hr)). }
  split; [|split; [|split]].
  - unfold get_module_path, PyStr.split.
    by rewrite (proj1 (split_go_dotless root "" Hroot)).
  - intros rest. by apply Hdrop.
  - intros rest Hrest. rewrite Hdrop by done. unfold PyStr.split.
    rewrite (proj1 (split_go_dotless rest "" Hrest)). simpl.
    by rewrite rev_rev_app.
  - intros root' rest Hroot'. by rewrite !Hdrop.
Qed.

Lemma module_path_drops_the_root_witness :
  get_module_path "api" = "/"
  /\ (forall rest,
         get_module_path ("api" +:+ "." +:+ rest)
         = "/" +:+ PyStr.join "/" (PyStr.split "." rest))
  /\ (forall rest, dotless rest = true ->
         get_module_path ("api" +:+ "." +:+ rest) = "/" +:+ rest)
  /\ (forall root' rest, dotless root' = true ->
         get_module_path (root' +:+ "." +:+ rest)
         = get_module_path ("api" +:+ "." +:+ rest)).
Proof. apply (module_path_drops_the_root "api"). reflexivity. Defined.

(** ** Argument routes tell parameter lists apart *)

Lemma named_groups_arg_route (args : list string) :
  Forall (fun a => word a = true) args ->
  named_groups (get_arg_route args) = map (fun a => (a, "[a-zA-Z0-9_]+")) args.
Proof.
  intros Hword. destruct args as [|a args]; [done|].
  unfold named_groups, get_arg_route.
  rewrite append_cons, append_nil_l, scan_slash.
  change (scan (PyStr.join "/" (map capture (a :: args)) +:+ String "/" "?$")
            (Outside 0) = map (fun a => (a, "[a-zA-Z0-9_]+")) (a :: args)).
  rewrite scan_join by done. simpl scan. by rewrite app_nil_r.
Qed.

(** Two lists of parameter names, made of word characters, that give the
    same argument route are the same list; so two methods of a handler
    whose parameter lists differ get different urls under the same
    name. *)
Theorem arg_route_tells_parameters_apart (args1 args2 : list string) :
  Forall (fun a => word a = true) args1 ->
  Forall (fun a => word a = true) args2 ->
  (get_arg_route args1 = get_arg_route args2 -> args1 = args2)
  /\ (forall module_name cls_name url_name,
         format_route module_name cls_name args1 url_name
         = format_route module_name cls_name args2 url_name ->
         args1 = args2).
Proof.
  intros H1 H2.
  assert (Hinj : get_arg_route args1 = get_arg_route args2 -> args1 = args2).
  { intros H. apply (f_equal named_groups) in H.
    rewrite !named_groups_arg_route in H by done.
    apply (f_equal (map fst)) in H. rewrite !map_map in H. simpl in H.
    by rewrite !map_id in H. }
  split; [done|].
  intros module_name cls_name url_name H. unfold format_route in H.
  apply String.app_inj, String.app_inj in H. by apply Hinj.
Qed.

Lemma arg_route_tells_parameters_apart_witness :
  (get_arg_route ["id"] = get_arg_route ["id"; "page"] -> ["id"] = ["id"; "page"])
  /\ (forall module_name cls_name url_name,
         format_route module_name cls_name ["id"] url_name
         = format_route module_name cls_name ["id"; "page"] url_name ->
         ["id"] = ["id"; "page"]).
Proof.
  apply (arg_route_tells_parameters_apart ["id"] ["id"; "page"]);
    repeat constructor.
Defined.

(** ** What [get_routes] leaves behind *)

(** A run of [get_routes], whether it returns or raises, leaves the
    modules and the classes with all their attributes as they were: it
    writes to [map] objects only.  Where no handler holds a [map] object
    it writes nothing, and a second run gives what the first gave. *)
Theorem get_routes_writes_no_code `{so : SetOrder}
    (package : Package) (w w' : World) (r : Result (list Entry)) :
  get_routes package w = (r, w') ->
  same_code w w'
  /\ gen_submodule_names package w' = gen_submodule_names package w
  /\ (frozen w -> w' = w /\ get_routes package w' = (r, w')).
Proof.
  intros H.
  assert (Hsame : same_code w w').
  { revert H. unfold get_routes.
    apply (preserves_bind
             (for_each (fun modname => get_module_routes modname None None)
                       (gen_submodule_names package w))
             (fun rss => ret (concat rss))).
    - apply preserves_for_each. intros modname.
      apply preserves_get_module_routes.
    - intros rss. apply preserves_ret. }
  split; [done|]. split.
  - unfold gen_submodule_names. by destruct Hsame as [-> _].
  - intros Hw.
    assert (w' = w) as ->; [|done].
    revert H. unfold get_routes.
    apply (stable_bind
             (for_each (fun modname => get_module_routes modname None None)
                       (gen_submodule_names package w))
             (fun rss => ret (concat rss))); [| |done].
    + apply stable_for_each. intros modname. apply stable_get_module_routes.
    + intros rss. apply stable_ret.
Qed.

Lemma get_routes_writes_no_code_witness :
  same_code Sample.routed_world
    (get_routes (so := insertion_order) Sample.hello_api Sample.routed_world).2
  /\ gen_submodule_names Sample.hello_api
       (get_routes (so := insertion_order) Sample.hello_api Sample.routed_world).2
     = gen_submodule_names Sample.hello_api Sample.routed_world.
Proof.
  destruct (get_routes_writes_no_code (so := insertion_order) Sample.hello_api
              Sample.routed_world
              (get_routes Sample.hello_api Sample.routed_world).2
              (get_routes Sample.hello_api Sample.routed_world).1)
    as (H1 & H2 & _).
  - by destruct (get_routes Sample.hello_api Sample.routed_world).
  - by split.
Defined.

(** ** The package walk *)

Lemma ModuleInfo_nested_ind (P : ModuleInfo -> Prop) :
  (forall name ispkg sub, Forall P sub -> P (mkInfo name ispkg sub)) ->
  forall i, P i.
Proof.
  intros H. fix IH 1. intros [name ispkg sub]. apply H.
  induction sub as [|i sub IHsub]; constructor; [apply IH|exact IHsub].
Qed.

Lemma elem_of_flat_map {A B} (f : A -> list B) (l : list A) (y : B) :
  y ∈ flat_map f l <-> exists x, x ∈ l /\ y ∈ f x.
Proof.
  rewrite list_elem_of_In, in_flat_map. split.
  - intros (x & Hx & Hy). exists x. by rewrite !list_elem_of_In.
  - intros (x & Hx & Hy). exists x. by rewrite <- !list_elem_of_In.
Qed.

Lemma walk_info_prefix importable i :
  forall prefix n, n ∈ walk_info importable prefix i ->
                   exists rest, n = prefix +:+ rest.
Proof.
  induction i as [name ispkg sub IH] using ModuleInfo_nested_ind.
  intros prefix n Hn. simpl in Hn. apply elem_of_cons in Hn as [->|Hn].
  - by exists name.
  - destruct (ispkg && importable (prefix +:+ name)); [|by apply elem_of_nil in Hn].
    apply elem_of_flat_map in Hn as (i & Hi & Hn).
    rewrite Forall_forall in IH.
    destruct (IH i Hi _ _ Hn) as [rest ->].
    exists (name +:+ "." +:+ rest). by rewrite !append_assoc.
Qed.

Lemma walk_info_mono (imp1 imp2 : string -> bool) i :
  (forall n, imp1 n = true -> imp2 n = true) ->
  forall prefix n, n ∈ walk_info imp1 prefix i -> n ∈ walk_info imp2 prefix i.
Proof.
  intros Himp. induction i as [name ispkg sub IH] using ModuleInfo_nested_ind.
  intros prefix n Hn. simpl in *. apply elem_of_cons in Hn as [->|Hn]; [left|].
  right. destruct ispkg; simpl in *; [|done].
  destruct (imp1 (prefix +:+ name)) eqn:E; [|by apply elem_of_nil in Hn].
  rewrite (Himp _ E).
  apply elem_of_flat_map in Hn as (i & Hi & Hn). apply elem_of_flat_map.
  rewrite Forall_forall in IH. exists i. split; [done|]. by apply IH.
Qed.

(** Every name that [gen_submodule_names] yields is the package name, a
    dot, and a rest; every entry directly under the package path is
    yielded, whether or not it imports. *)
Theorem submodule_names_are_under_the_package (package : Package) (w : World) :
  (forall n, n ∈ gen_submodule_names package w ->
             exists rest, n = pkg__name__ package +:+ "." +:+ rest)
  /\ (forall name ispkg sub,
         mkInfo name ispkg sub ∈ pkg__path__ package ->
         pkg__name__ package +:+ "." +:+ name ∈ gen_submodule_names package w).
Proof.
  unfold gen_submodule_names, walk_packages. split.
  - intros n Hn. apply elem_of_flat_map in Hn as (i & _ & Hn).
    destruct (walk_info_prefix _ _ _ _ Hn) as [rest ->].
    exists rest. by rewrite append_assoc.
  - intros name ispkg sub Hi. apply elem_of_flat_map.
    exists (mkInfo name ispkg sub). split; [done|]. simpl.
    rewrite append_assoc. left.
Qed.

(** What the walk yields with more modules importable and did not yield
    before is under a package that it yielded before and that did not
    import then. *)
Lemma walk_info_hidden (imp1 imp2 : string -> bool) i :
  forall prefix n, n ∈ walk_info imp2 prefix i ->
    n ∈ walk_info imp1 prefix i \/
    exists p rest,
      p ∈ walk_info imp1 prefix i /\ imp1 p = false /\ imp2 p = true /\
      n = p +:+ "." +:+ rest.
Proof.
  induction i as [name ispkg sub IH] using ModuleInfo_nested_ind.
  intros prefix n Hn. simpl in *.
  apply elem_of_cons in Hn as [->|Hn]; [left; left|].
  destruct ispkg; simpl in *; [|by apply elem_of_nil in Hn].
  destruct (imp2 (prefix +:+ name)) eqn:E2; [|by apply elem_of_nil in Hn].
  apply elem_of_flat_map in Hn as (i & Hi & Hn).
  destruct (imp1 (prefix +:+ name)) eqn:E1.
  - rewrite Forall_forall in IH.
    destruct (IH i Hi _ _ Hn) as [H|(p & rest & Hp & H1 & H2 & ->)].
    + left. right. apply elem_of_flat_map. by exists i.
    + right. exists p, rest. split; [|done]. right.
      apply elem_of_flat_map. by exists i.
  - right. destruct (walk_info_prefix _ _ _ _ Hn) as [rest ->].
    exists (prefix +:+ name), rest. split; [left|]. split; [done|].
    split; [done|]. by rewrite append_assoc.
Qed.

(** A package that fails to import hides what is under it and nothing
    else: with more modules importable the walk yields every name it
    yielded before, and every name that it yields besides is under a
    package whose name it yielded before, which did not import then and
    imports now. *)
Theorem more_imports_more_names (package : Package) (w1 w2 : World) :
  (forall m, is_Some (sys_modules w1 !! m) -> is_Some (sys_modules w2 !! m)) ->
  (forall n, n ∈ gen_submodule_names package w1 ->
             n ∈ gen_submodule_names package w2)
  /\ (forall n, n ∈ gen_submodule_names package w2 ->
        n ∈ gen_submodule_names package w1 \/
        exists p rest,
          p ∈ gen_submodule_names package w1 /\
          sys_modules w1 !! p = None /\ is_Some (sys_modules w2 !! p) /\
          n = p +:+ "." +:+ rest).
Proof.
  intros Hsub. unfold gen_submodule_names, walk_packages. split.
  - intros n Hn.
    apply elem_of_flat_map in Hn as (i & Hi & Hn). apply elem_of_flat_map.
    exists i. split; [done|]. revert Hn. apply walk_info_mono.
    intros m Hm. apply bool_decide_eq_true in Hm. apply bool_decide_eq_true.
    by apply Hsub.
  - intros n Hn. apply elem_of_flat_map in Hn as (i & Hi & Hn).
    destruct (walk_info_hidden
                (fun n => bool_decide (is_Some (sys_modules w1 !! n))) _ _ _ _ Hn)
      as [H|(p & rest & Hp & H1 & H2 & ->)].
    + left. apply elem_of_flat_map. by exists i.
    + right. exists p, rest. split; [apply elem_of_flat_map; by exists i|].
      apply bool_decide_eq_false in H1. apply bool_decide_eq_true in H2.
      split; [|done]. by apply eq_None_not_Some.
Qed.

Lemma more_imports_more_names_witness :
  gen_submodule_names Sample.nested Sample.hello_world
  = ["api.helloworld"; "api.sub"]
  /\ "api.sub" ∈ gen_submodule_names Sample.nested Sample.sub_world
  /\ exists p rest,
       p ∈ gen_submodule_names Sample.nested Sample.hello_world /\
       sys_modules Sample.hello_world !! p = None /\
       is_Some (sys_modules Sample.sub_world !! p) /\
       "api.sub.x" = p +:+ "." +:+ rest.
Proof.
  assert (Hnames : gen_submodule_names Sample.nested Sample.hello_world
                   = ["api.helloworld"; "api.sub"]) by (vm_compute; reflexivity).
  destruct (more_imports_more_names Sample.nested Sample.hello_world
              Sample.sub_world) as [Hmono Hnew].
  - intros m Hm. unfold Sample.sub_world. simpl.
    apply lookup_insert_is_Some'. by right.
  - split; [exact Hnames|]. split.
    + apply Hmono. rewrite Hnames. right. left.
    + destruct (Hnew "api.sub.x") as [Hold|H]; [|exfalso|exact H].
      * vm_compute. right. right. left.
      * rewrite Hnames in Hold.
        apply elem_of_cons in Hold as [Hold|Hold]; [discriminate Hold|].
        apply elem_of_cons in Hold as [Hold|Hold]; [discriminate Hold|].
        by apply elem_of_nil in Hold.
Defined.

Lemma submodule_names_are_under_the_package_witness :
  exists rest, "api.helloworld" = "api" +:+ "." +:+ rest.
Proof.
  apply (proj1 (submodule_names_are_under_the_package Sample.api Sample.hello_world)).
  vm_compute. left.
Defined.
